(** * journal: checklist-based lock/unlock of a directory of encrypted files

    A shallow embedding of [checklist.go] (package journal) and of the two
    revisions of the command's [main] package, followed by the properties of
    the fingerprint store, of the directory scan and of the Lock and Unlock
    protocols.

    Go strings and byte slices are [string]s (sequences of 8-bit
    characters).  The file system is a finite map from paths to nodes.  A Go
    function that returns [(T, error)] returns a pair whose second component
    is an [option error] ([None] is Go's nil error); a pointer result that
    may be nil is an [option]. *)

From Stdlib Require Import String Ascii List ZArith Lia Bool.
From stdpp Require Import base option gmap strings list fin_maps.

Import ListNotations.
Local Open Scope list_scope.
Local Open Scope string_scope.

(** ** Errors, panics and process exits *)

Inductive errno := ENOENT | EACCES | EISDIR.

(** The [error] values the program handles: the sentinels of [io] and
    [bufio], the [*os.PathError] of a failed file operation, the
    [*exec.ExitError] of a command that ran and failed, and the errors that
    [fmt.Errorf] builds around another error. *)
Inductive error :=
| EOF
| ErrBufferFull
| PathError (op path : string) (no : errno)
| ExitError (cmd : string)
| Errorf (msg : string) (cause : error).

(** [os.IsNotExist]. *)
Definition IsNotExist (err : error) : bool :=
  match err with
  | PathError _ _ ENOENT => true
  | _ => false
  end.

Inductive panic :=
| IndexOutOfRange (index len : nat)
| NilDereference.

(** How a call ends: it returns, it panics, it ends the process ([os.Exit],
    [log.Fatal]), or it is still running after the turns it was given. *)
Inductive outcome (A : Type) :=
| Returns (a : A)
| Panics (p : panic)
| Exits (code : Z)
| Diverges.
Arguments Returns {A} a.
Arguments Panics {A} p.
Arguments Exits {A} code.
Arguments Diverges {A}.

(** ** Package [strings] *)

Module strings.

Definition LF : ascii := "010"%char.
Definition CR : ascii := "013"%char.

(** [strings.Split(s, sep)] for a one-byte separator, the only form the
    program uses.  The result always has at least one element. *)
Fixpoint Split (s : string) (sep : ascii) : list string :=
  match s with
  | EmptyString => [EmptyString]
  | String c s' =>
      if Ascii.eqb c sep then EmptyString :: Split s' sep
      else match Split s' sep with
           | [] => [String c EmptyString]
           | w :: ws => String c w :: ws
           end
  end.

Fixpoint HasPrefix (s prefix : string) : bool :=
  match prefix, s with
  | EmptyString, _ => true
  | String p prefix', String c s' => Ascii.eqb c p && HasPrefix s' prefix'
  | String _ _, EmptyString => false
  end.

Definition reverse (s : string) : string :=
  string_of_list_ascii (rev (list_ascii_of_string s)).

Definition HasSuffix (s suffix : string) : bool :=
  HasPrefix (reverse s) (reverse suffix).

(** [strings.TrimPrefix]. *)
Definition TrimPrefix (s prefix : string) : string :=
  if HasPrefix s prefix
  then String.substring (String.length prefix) (String.length s - String.length prefix) s
  else s.

(** [strings.TrimSuffix]: [s] without the trailing [suffix], or [s] itself
    when it does not end in [suffix]. *)
Definition TrimSuffix (s suffix : string) : string :=
  if HasSuffix s suffix
  then String.substring 0 (String.length s - String.length suffix) s
  else s.

Definition isSpace (c : ascii) : bool :=
  let n := nat_of_ascii c in
  (Nat.eqb n 9 || Nat.eqb n 10 || Nat.eqb n 11 || Nat.eqb n 12 || Nat.eqb n 13 || Nat.eqb n 32)%bool.

Fixpoint TrimLeftSpace (s : string) : string :=
  match s with
  | String c s' => if isSpace c then TrimLeftSpace s' else s
  | EmptyString => EmptyString
  end.

(** [strings.TrimSpace] on the ASCII white space. *)
Definition TrimSpace (s : string) : string :=
  reverse (TrimLeftSpace (reverse (TrimLeftSpace s))).

(** [strings.Join(elems, sep)]. *)
Fixpoint Join (elems : list string) (sep : string) : string :=
  match elems with
  | [] => EmptyString
  | [e] => e
  | e :: rest => e ++ sep ++ Join rest sep
  end.

End strings.

(** ** Packages [path] and [path/filepath] (Unix separators) *)

Module filepath.

Definition Separator : ascii := "/"%char.
Definition IsPathSeparator (c : ascii) : bool := Ascii.eqb c Separator.

Fixpoint dropWhile (f : ascii -> bool) (s : string) : string :=
  match s with
  | String c s' => if f c then dropWhile f s' else s
  | EmptyString => EmptyString
  end.

Fixpoint takeWhile (f : ascii -> bool) (s : string) : string :=
  match s with
  | String c s' => if f c then String c (takeWhile f s') else EmptyString
  | EmptyString => EmptyString
  end.

Definition notSeparator (c : ascii) : bool := negb (IsPathSeparator c).

(** The last element of [path] read backwards: the bytes after the last
    separator, last byte first. *)
Definition lastElementRev (path : string) : string :=
  takeWhile notSeparator (strings.reverse path).

(** [filepath.Base]: the last element of the path, after the trailing
    separators are removed; ["."] for the empty path and ["/"] for a path of
    separators only. *)
Definition Base (path : string) : string :=
  if String.eqb path "" then "."
  else
    let path := strings.reverse (dropWhile IsPathSeparator (strings.reverse path)) in
    let path := strings.reverse (lastElementRev path) in
    if String.eqb path "" then "/" else path.

(** The extension read backwards, from the last byte to the final dot of
    the last element. *)
Fixpoint extRev (e : string) : option string :=
  match e with
  | EmptyString => None
  | String c e' =>
      if Ascii.eqb c "."%char then Some (String c EmptyString)
      else option_map (String c) (extRev e')
  end.

(** [filepath.Ext]: the suffix that starts at the final dot of the last
    element of the path, or the empty string. *)
Definition Ext (path : string) : string :=
  match extRev (lastElementRev path) with
  | Some r => strings.reverse r
  | None => ""
  end.

(** One step of [Clean] over the elements of a path: [out] holds the
    elements kept so far, last one first, and [dotdot] counts the leading
    [..] elements that cannot be removed. *)
Definition cleanStep (rooted : bool) (st : list string * nat) (e : string)
  : list string * nat :=
  let '(out, dotdot) := st in
  if String.eqb e "" || String.eqb e "." then st
  else if String.eqb e ".." then
    if Nat.ltb dotdot (List.length out) then (List.tl out, dotdot)
    else if rooted then st
    else (e :: out, S (List.length out))
  else (e :: out, dotdot).

(** [filepath.Clean] (and [path.Clean]): the shortest path equivalent to
    [path] by purely lexical processing. *)
Definition Clean (path : string) : string :=
  if String.eqb path "" then "."
  else
    let rooted := strings.HasPrefix path "/" in
    let '(out, _) := fold_left (cleanStep rooted) (strings.Split path Separator) ([], 0) in
    let body := strings.Join (rev out) "/" in
    if rooted then "/" ++ body
    else if String.eqb body "" then "." else body.

(** [path.Join] and [filepath.Join]: the non-empty elements joined by
    separators, cleaned; the empty string when there is none. *)
Definition Join (elem : list string) : string :=
  match List.filter (fun e => negb (String.eqb e "")) elem with
  | [] => ""
  | es => Clean (strings.Join es "/")
  end.

(** [filepath.Dir]: all but the last element of the path, cleaned. *)
Definition Dir (path : string) : string :=
  Clean (strings.reverse (dropWhile notSeparator (strings.reverse path))).

Definition IsAbs (path : string) : bool := strings.HasPrefix path "/".

End filepath.

(** ** The file system *)

Module disk.

(** A node of the file system.  A regular file has its bytes and whether the
    process may read it; the children of a directory are the nodes whose
    paths extend its own. *)
Inductive node :=
| File (content : string) (readable : bool)
| Directory.

End disk.

(** ** Package [io] *)

Module io.

(** [io.WriteString(w, s)] on a writer of type [W]; a writer backed by a
    file changes the file system. *)
Class Writer (W : Type) :=
  WriteString : W -> string -> gmap string disk.node ->
                option error * W * gmap string disk.node.

(** [bytes.Buffer]: the bytes written so far. *)
Definition Buffer := string.

#[global] Instance Buffer_Writer : Writer Buffer :=
  fun b s fs => (None, (b ++ s)%string, fs).

(** An [io.Reader]: the bytes still to come and the error it returns once
    they are read ([EOF] for a file or a buffer). *)
Record Reader := mkReader {
  data : string;
  final : error
}.

(** [bytes.NewBufferString(s)] as a reader. *)
Definition NewBufferString (s : string) : Reader := mkReader s EOF.

End io.

(** ** Package [os]: the file system and the process's environment *)

Module os.

Export disk.

(** What the process sees and changes: the file system, the working
    directory ([None] when it cannot be determined), what was printed to the
    standard output, and the external commands run so far with their
    arguments, oldest first. *)
Record World := mkWorld {
  fs : gmap string node;
  cwd : option string;
  stdout : list string;
  execs : list (string * list string)
}.

Definition setFS (w : World) (fs' : gmap string node) : World :=
  mkWorld fs' (cwd w) (stdout w) (execs w).

Definition logExec (cmd : string) (args : list string) (w : World) : World :=
  mkWorld (fs w) (cwd w) (stdout w) (execs w ++ [(cmd, args)]).

(** [ioutil.ReadFile]. *)
Definition ReadFile (fs : gmap string node) (name : string) : string * option error :=
  match fs !! name with
  | None => ("", Some (PathError "open" name ENOENT))
  | Some Directory => ("", Some (PathError "read" name EISDIR))
  | Some (File content true) => (content, None)
  | Some (File _ false) => ("", Some (PathError "open" name EACCES))
  end.

(** [os.Create]: the file is created or truncated; the handle is the path. *)
Definition Create (name : string) (fs : gmap string node)
  : (string * option error) * gmap string node :=
  match fs !! name with
  | Some Directory => (("", Some (PathError "open" name EISDIR)), fs)
  | Some (File _ false) => (("", Some (PathError "open" name EACCES)), fs)
  | _ => ((name, None), <[name := File "" true]> fs)
  end.

(** [File.Write] on a handle from [Create]: the bytes go to the end of
    the file. *)
Definition FileWrite (name : string) (p : string) (fs : gmap string node)
  : option error * gmap string node :=
  match fs !! name with
  | Some (File content r) => (None, <[name := File (content ++ p) r]> fs)
  | _ => (Some (PathError "write" name ENOENT), fs)
  end.

(** [os.Open] for reading: the bytes of the file, then [EOF].  A directory
    opens, and reading it fails. *)
Definition Open (name : string) (fs : gmap string node) : io.Reader * option error :=
  match fs !! name with
  | None => (io.mkReader "" EOF, Some (PathError "open" name ENOENT))
  | Some (File _ false) => (io.mkReader "" EOF, Some (PathError "open" name EACCES))
  | Some (File content true) => (io.mkReader content EOF, None)
  | Some Directory => (io.mkReader "" (PathError "read" name EISDIR), None)
  end.

(** [os.Getwd]. *)
Definition Getwd (w : World) : string * option error :=
  match cwd w with
  | Some d => (d, None)
  | None => ("", Some (PathError "getwd" "." ENOENT))
  end.

(** [filepath.Abs]. *)
Definition Abs (path : string) (w : World) : string * option error :=
  if filepath.IsAbs path then (filepath.Clean path, None)
  else match Getwd w with
       | (wd, None) => (filepath.Join [wd; path], None)
       | (_, Some err) => ("", Some err)
       end.

(** *** The order of [filepath.Walk] *)

Fixpoint compareElems (a b : list string) : comparison :=
  match a, b with
  | [], [] => Eq
  | [], _ :: _ => Lt
  | _ :: _, [] => Gt
  | x :: a', y :: b' =>
      match String.compare x y with
      | Eq => compareElems a' b'
      | c => c
      end
  end.

(** [p] is visited before [q]: a directory before what it holds, the names
    of one directory in the order of their bytes. *)
Definition walkBefore (p q : string) : bool :=
  match compareElems (strings.Split p filepath.Separator) (strings.Split q filepath.Separator) with
  | Gt => false
  | _ => true
  end.

Fixpoint insertSorted (p : string) (l : list string) : list string :=
  match l with
  | [] => [p]
  | q :: l' => if walkBefore p q then p :: l else q :: insertSorted p l'
  end.

Definition sortWalk (l : list string) : list string :=
  fold_right insertSorted [] l.

Definition under (root p : string) : bool :=
  strings.HasPrefix p (if String.eqb root "/" then "/" else root ++ "/")
  && negb (String.eqb p root).

(** What the program could read of an [os.FileInfo]. *)
Record FileInfo := mkFileInfo { IsDir : bool }.

(** One call of the walk function: the path, its [os.FileInfo] (nil when
    [Lstat] failed) and the error of [Lstat]. *)
Record visit := mkVisit {
  vpath : string;
  vinfo : option FileInfo;
  verr : option error
}.

Definition isDirectory (n : node) : bool :=
  match n with Directory => true | File _ _ => false end.

(** The calls [filepath.Walk(root, fn)] makes while [fn] returns nil. *)
Definition walkOrder (fs : gmap string node) (root : string) : list visit :=
  match fs !! root with
  | None => [mkVisit root None (Some (PathError "lstat" root ENOENT))]
  | Some (File _ _) => [mkVisit root (Some (mkFileInfo false)) None]
  | Some Directory =>
      mkVisit root (Some (mkFileInfo true)) None ::
      omap (fun p => n ← fs !! p;
                     Some (mkVisit p (Some (mkFileInfo (isDirectory n))) None))
           (sortWalk (List.filter (under root) (map fst (map_to_list fs))))
  end.

(** [filepath.Walk(root, fn)]: [fn] is called on the visits in order until it
    returns an error, panics or ends the process. *)
Fixpoint walkVisits {S : Type} (fn : visit -> S -> outcome (option error * S))
    (vs : list visit) (s : S) : outcome (option error * S) :=
  match vs with
  | [] => Returns (None, s)
  | v :: vs' =>
      match fn v s with
      | Returns (None, s') => walkVisits fn vs' s'
      | stop => stop
      end
  end.

Definition Walk {S : Type} (fs : gmap string node) (root : string)
    (fn : visit -> S -> outcome (option error * S)) (s : S)
  : outcome (option error * S) :=
  walkVisits fn (walkOrder fs root) s.

(** *** External commands *)

Definition renameKey (src dst k : string) : string :=
  if String.eqb k src then dst
  else if strings.HasPrefix k (src ++ "/")
       then dst ++ String.substring (String.length src) (String.length k - String.length src) k
       else k.

(** The effect of [mv src dst] on the file system, [None] when [mv] fails. *)
Definition mvFS (src dst : string) (fs : gmap string node) : option (gmap string node) :=
  let target :=
    match fs !! dst with
    | Some Directory => filepath.Join [dst; filepath.Base src]
    | _ => dst
    end in
  if String.eqb src target then None
  else match fs !! src, fs !! target with
       | None, _ => None
       | Some (File c r), Some Directory => None
       | Some (File c r), _ => Some (<[target := File c r]> (delete src fs))
       | Some Directory, Some _ => None
       | Some Directory, None =>
           if strings.HasPrefix target (src ++ "/") then None
           else Some (list_to_map
                        (map (fun kn => (renameKey src target (fst kn), snd kn))
                             (map_to_list fs)))
       end.

(** The effect of [rm name] (no flags) on the file system. *)
Definition rmFS (name : string) (fs : gmap string node) : option (gmap string node) :=
  match fs !! name with
  | Some (File _ _) => Some (delete name fs)
  | _ => None
  end.

(** [exec.Command(cmd, args...).Run()] for a command whose effect on the
    file system is [effect]. *)
Definition Run (cmd : string) (args : list string)
    (effect : gmap string node -> option (gmap string node)) (w : World)
  : option error * World :=
  let w := logExec cmd args w in
  match effect (fs w) with
  | Some fs' => (None, setFS w fs')
  | None => (Some (ExitError cmd), w)
  end.

End os.

(** ** Package [bufio] *)

Module bufio.

Definition defaultBufSize : nat := 4096.
Definition minReadBufferSize : nat := 16.

Record Reader := mkReader {
  rd : io.Reader;
  size : nat
}.

Definition NewReaderSize (rd : io.Reader) (size : nat) : Reader :=
  mkReader rd (Nat.max size minReadBufferSize).

Definition NewReader (rd : io.Reader) : Reader :=
  NewReaderSize rd defaultBufSize.

(** [ReadSlice('\n')] on the bytes to come: the line up to and including the
    delimiter, the bytes after it, and [ErrBufferFull] when [size] bytes hold
    no delimiter, or the reader's error when the bytes end before one. *)
Fixpoint ReadSlice (final : error) (size : nat) (data : string)
  : string * string * option error :=
  match size, data with
  | O, _ => ("", data, Some ErrBufferFull)
  | S _, EmptyString => ("", "", Some final)
  | S size', String c rest =>
      if Ascii.eqb c strings.LF then (String c "", rest, None)
      else let '(line, rest', err) := ReadSlice final size' rest in
           (String c line, rest', err)
  end.

(** [s[i] == c], false out of range. *)
Definition byteIs (s : string) (i : nat) (c : ascii) : bool :=
  match String.get i s with
  | Some c' => Ascii.eqb c' c
  | None => false
  end.

(** [s[:len(s)-n]]. *)
Definition dropLast (n : nat) (s : string) : string :=
  String.substring 0 (String.length s - n) s.

(** [ReadLine]: the next line without its end-of-line bytes, whether only
    the beginning of a line too long for the buffer was returned, and the
    error; then the reader after the call. *)
Definition ReadLine (b : Reader) : (string * bool * option error) * Reader :=
  let '(line, rest, err) := ReadSlice (io.final (rd b)) (size b) (io.data (rd b)) in
  let n := String.length line in
  let next rest := mkReader (io.mkReader rest (io.final (rd b))) (size b) in
  match err with
  | Some ErrBufferFull =>
      if Nat.ltb 0 n && byteIs line (n - 1) strings.CR
      then ((dropLast 1 line, true, None), next (String strings.CR rest))
      else ((line, true, None), next rest)
  | _ =>
      if Nat.eqb n 0 then (("", false, err), next rest)
      else if byteIs line (n - 1) strings.LF then
        let drop := if Nat.ltb 1 n && byteIs line (n - 2) strings.CR then 2 else 1 in
        ((dropLast drop line, false, None), next rest)
      else ((line, false, None), next rest)
  end.

(** [bufio.Writer] over a file handle: the bytes not yet written to the
    file, and the first error of a write. *)
Record Writer := mkWriter {
  wr : string;
  buf : string;
  wsize : nat;
  werr : option error
}.

Definition NewWriter (file : string) : Writer :=
  mkWriter file "" defaultBufSize None.

Definition Flush (b : Writer) (fs : gmap string disk.node)
  : option error * Writer * gmap string disk.node :=
  match werr b with
  | Some err => (Some err, b, fs)
  | None =>
      if String.eqb (buf b) "" then (None, b, fs)
      else match os.FileWrite (wr b) (buf b) fs with
           | (Some err, fs') => (Some err, mkWriter (wr b) (buf b) (wsize b) (Some err), fs')
           | (None, fs') => (None, mkWriter (wr b) "" (wsize b) None, fs')
           end
  end.

(** [Writer.WriteString], as [io.WriteString] calls it: the bytes fill the
    buffer, which is written to the file each time it is full while bytes
    remain. *)
Fixpoint WriteString (b : Writer) (s : string) (fs : gmap string disk.node)
  : option error * Writer * gmap string disk.node :=
  match werr b, s with
  | Some err, _ => (Some err, b, fs)
  | None, EmptyString => (None, b, fs)
  | None, String c s' =>
      if Nat.ltb (String.length (buf b)) (wsize b)
      then WriteString (mkWriter (wr b) (buf b ++ String c "") (wsize b) None) s' fs
      else match Flush b fs with
           | (Some err, b', fs') => (Some err, b', fs')
           | (None, b', fs') =>
               WriteString (mkWriter (wr b') (buf b' ++ String c "") (wsize b') None) s' fs'
           end
  end.

#[global] Instance Writer_Writer : io.Writer Writer := WriteString.

(** The bytes go to the file at once, past the buffer. *)
Definition writeThrough (b : Writer) (p : string) (fs : gmap string disk.node)
  : option error * Writer * gmap string disk.node :=
  match os.FileWrite (wr b) p fs with
  | (Some err, fs') => (Some err, mkWriter (wr b) (buf b) (wsize b) (Some err), fs')
  | (None, fs') => (None, b, fs')
  end.

(** [Writer.Write]: bytes that fit go to the buffer; bytes that do not fit
    an empty buffer go to the file at once; otherwise the buffer is filled
    and flushed first. *)
Definition Write (b : Writer) (p : string) (fs : gmap string disk.node)
  : option error * Writer * gmap string disk.node :=
  match werr b with
  | Some err => (Some err, b, fs)
  | None =>
      let available := wsize b - String.length (buf b) in
      if Nat.leb (String.length p) available
      then (None, mkWriter (wr b) (buf b ++ p) (wsize b) None, fs)
      else if String.eqb (buf b) "" then writeThrough b p fs
      else
        let filled := mkWriter (wr b) (buf b ++ String.substring 0 available p)
                               (wsize b) None in
        let p := String.substring available (String.length p - available) p in
        match Flush filled fs with
        | (Some err, b', fs') => (Some err, b', fs')
        | (None, b', fs') =>
            if Nat.leb (String.length p) (wsize b')
            then (None, mkWriter (wr b') p (wsize b') None, fs')
            else writeThrough b' p fs'
        end
  end.

End bufio.

(** ** Package [journal]: the fingerprint store of [checklist.go] *)

Module journal.

Section Checklist.

(** [hex.EncodeToString] of the MD5 digest of a file's bytes. *)
Variable md5sum : string -> string.

Record file := mkFile {
  path : string;
  hash : string
}.

Record Checklist := mkChecklist {
  files : list file
}.

(** A method with a pointer receiver reads and may change the [Checklist]
    it is called on. *)
Definition method (A : Type) : Type := Checklist -> A * Checklist.

Definition AddFile (path hash : string) : method unit :=
  fun c => (tt, mkChecklist (files c ++ [mkFile path hash])).

Definition Collect (fs : gmap string disk.node) (path : string) : method (option error) :=
  fun c =>
    match os.ReadFile fs path with
    | (_, Some err) => (Some err, c)
    | (content, None) =>
        let hash := md5sum content in
        let '(_, c) := AddFile path hash c in
        (None, c)
    end.

(** [arr[i]], which panics out of range. *)
Definition index (arr : list string) (i : nat) : panic + string :=
  match nth_error arr i with
  | Some x => inr x
  | None => inl (IndexOutOfRange i (List.length arr))
  end.

(** The [for] loop of [ChecklistFromReader], for at most [fuel] turns.
    Each turn that does not return consumes bytes of the reader. *)
Fixpoint readLines (fuel : nat) (r : bufio.Reader) (checklist : Checklist)
  : outcome (option Checklist * option error) :=
  match fuel with
  | O => Diverges
  | S fuel' =>
      let '((line, _, err), r) := bufio.ReadLine r in
      match err with
      | Some err => Returns (None, Some err)
      | None =>
          let arr := strings.Split line " "%char in
          match index arr 1 with
          | inl p => Panics p
          | inr a1 =>
              match index arr 0 with
              | inl p => Panics p
              | inr a0 => readLines fuel' r (snd (AddFile a1 a0 checklist))
              end
          end
      end
  end.

(** One turn more than the reader has bytes is enough for the loop to end
    ([ChecklistFromReader_ends]). *)
Definition ChecklistFromReader (input : io.Reader)
  : outcome (option Checklist * option error) :=
  let checklist := mkChecklist [] in
  let r := bufio.NewReader input in
  readLines (S (String.length (io.data input))) r checklist.

(** The function literal [ChecklistFromDir] hands to [filepath.Walk]. *)
Definition collectVisit (fs : gmap string disk.node)
    (filter : string -> option os.FileInfo -> bool)
    (v : os.visit) (checklist : Checklist) : outcome (option error * Checklist) :=
  match os.verr v with
  | Some err => Returns (Some err, checklist)
  | None =>
      if negb (filter (os.vpath v) (os.vinfo v))
      then Returns (None, checklist)
      else Returns (Collect fs (os.vpath v) checklist)
  end.

Definition ChecklistFromDir (fs : gmap string disk.node) (dir : string)
    (filter : string -> option os.FileInfo -> bool)
  : outcome (option Checklist * option error) :=
  let checklist := mkChecklist [] in
  match os.Walk fs dir (collectVisit fs filter) checklist with
  | Returns (Some err, _) => Returns (None, Some err)
  | Returns (None, checklist) => Returns (Some checklist, None)
  | Panics p => Panics p
  | Exits code => Exits code
  | Diverges => Diverges
  end.

(** The [range] loop of [Diff] over the files read from the receiver. *)
Fixpoint diffRange (fs : gmap string disk.node) (l : list file) (out : list string)
  : method (list string * option error) :=
  match l with
  | [] => fun c => ((out, None), c)
  | file :: l' =>
      match os.ReadFile fs (path file) with
      | (_, Some err) => fun c => (([], Some err), c)
      | (content, None) =>
          let sum := md5sum content in
          if negb (String.eqb sum (hash file))
          then diffRange fs l' (out ++ [path file])
          else diffRange fs l' out
      end
  end.

Definition Diff (fs : gmap string disk.node) : method (list string * option error) :=
  fun c => diffRange fs (files c) [] c.

(** [fmt.Sprintf] with the format of two strings and a space between. *)
Definition Sprintf_s_s (a b : string) : string := a ++ " " ++ b.

Fixpoint writeRange {W : Type} `{io.Writer W} (l : list file) (w : W)
    (fs : gmap string disk.node) : option error * W * gmap string disk.node :=
  match l with
  | [] => (None, w, fs)
  | file :: l' =>
      match io.WriteString w (Sprintf_s_s (hash file) (path file)) fs with
      | (Some err, w, fs) => (Some err, w, fs)
      | (None, w, fs) => writeRange l' w fs
      end
  end.

Definition Write {W : Type} `{io.Writer W} (w : W) (fs : gmap string disk.node)
  : method (option error * W * gmap string disk.node) :=
  fun c => (writeRange (files c) w fs, c).

End Checklist.

End journal.

(** ** Package [main]: the revision that scans, fingerprints and locks *)

Module main.

Import os.

Definition quote : string := String (Ascii.ascii_of_nat 34) EmptyString.

Definition newline : string := String strings.LF EmptyString.

(** [fmt.Printf] of an already formatted message. *)
Definition Printf (msg : string) (w : World) : World :=
  mkWorld (fs w) (cwd w) (stdout w ++ [msg]) (execs w).

(** [fmt.Println]. *)
Definition Println (msg : string) (w : World) : World :=
  Printf (msg ++ newline) w.

Definition nonHiddenFilesFilter (path : string) (_ : option FileInfo) : bool :=
  strings.HasPrefix (filepath.Base path) ".".

Definition DefaultFileExt : string := ".gpg".

Record FilePair := mkFilePair {
  enc : string;
  plain : string;
  hidden : bool
}.

Record Journal := mkJournal {
  RootDir : string;
  Files : list FilePair;
  encryptedFileExt : string;
  gpgCommand : string;
  gpgReceiver : string
}.

Section Journal.

Variable md5sum : string -> string.

(** The decryption and encryption capabilities of the external [gpg]: from
    the recipient argument and the bytes of the input file to the bytes of
    the output file, [None] when [gpg] fails. *)
Variable gpgDecrypt : string -> string -> option string.
Variable gpgEncrypt : string -> string -> option string.

(** The effect of [gpg --batch --yes -r recipient -o output input] on the
    file system: the input is read, the output is written over what was
    there.  A failed run leaves the file system as it was. *)
Definition gpgFS (capability : string -> string -> option string)
    (recipient input output : string) (fs : gmap string node)
  : option (gmap string node) :=
  match ReadFile fs input with
  | (_, Some _) => None
  | (bytes, None) =>
      match capability recipient bytes, fs !! output with
      | None, _ => None
      | Some _, Some Directory => None
      | Some result, _ => Some (<[output := File result true]> fs)
      end
  end.

Definition Decrypt (fp : FilePair) (j : Journal) (w : World) : option error * World :=
  let recipient := quote ++ gpgReceiver j ++ quote in
  let args := ["-d"; "--batch"; "--yes";
               "-r" ++ recipient;
               "-o" ++ plain fp;
               enc fp] in
  let w := Printf ("Executing " ++ gpgCommand j ++ " " ++ strings.Join args " " ++ newline) w in
  Run (gpgCommand j) args (gpgFS gpgDecrypt recipient (enc fp) (plain fp)) w.

Definition Encrypt (fp : FilePair) (j : Journal) (w : World) : option error * World :=
  let recipient := quote ++ gpgReceiver j ++ quote in
  let args := ["-e"; "--batch"; "--yes";
               "-o" ++ enc fp;
               "-r" ++ recipient;
               plain fp] in
  let w := Printf ("Executing " ++ gpgCommand j ++ " " ++ strings.Join args " " ++ newline) w in
  Run (gpgCommand j) args (gpgFS gpgEncrypt recipient (plain fp) (enc fp)) w.

(** The hidden-marker name of the encrypted artifact:
    [path.Join(dirname, "." + basename)]. *)
Definition footprint (fp : FilePair) : string :=
  let dirname := filepath.Dir (enc fp) in
  let basename := filepath.Base (enc fp) in
  filepath.Join [dirname; "." ++ basename].

Definition LeaveFootprint (fp : FilePair) (w : World) : option error * World :=
  Run "mv" [enc fp; footprint fp] (mvFS (enc fp) (footprint fp)) w.

Definition RemoveFootprint (fp : FilePair) (w : World) : option error * World :=
  Run "rm" [footprint fp] (rmFS (footprint fp)) w.

Definition Reset (fp : FilePair) (w : World) : option error * World :=
  Run "mv" [footprint fp; enc fp] (mvFS (footprint fp) (enc fp)) w.

(** The walk function of [NewJournalFromArgs].  [log.Fatal] ends the process
    with status 1.  The local [raw] is computed and never used. *)
Definition walkFile (v : visit) (j : Journal) : outcome (option error * Journal) :=
  let path := vpath v in
  match verr v with
  | Some err => Exits 1
  | None =>
      if negb (String.eqb (filepath.Ext path) (encryptedFileExt j))
      then Returns (None, j)
      else
        let hidden := strings.HasPrefix (filepath.Base path) "." in
        let raw := filepath.Join [filepath.Dir path;
                                  strings.TrimPrefix "." (filepath.Base path)] in
        let file := mkFilePair path (strings.TrimSuffix path (encryptedFileExt j)) hidden in
        Returns (None, mkJournal (RootDir j) (Files j ++ [file]) (encryptedFileExt j)
                                 (gpgCommand j) (gpgReceiver j))
  end.

Definition setRootDir (j : Journal) (d : string) : Journal :=
  mkJournal d (Files j) (encryptedFileExt j) (gpgCommand j) (gpgReceiver j).

Definition setReceiver (j : Journal) (r : string) : Journal :=
  mkJournal (RootDir j) (Files j) (encryptedFileExt j) (gpgCommand j) r.

Definition NewJournalFromArgs (args : list string) (w : World)
  : outcome (option Journal * option error) * World :=
  let journal := mkJournal "" [] DefaultFileExt "gpg" "" in
  let '(dir, err) :=
    match args with
    | [] =>
        match Getwd w with
        | (d, Some err) => (d, Some (Errorf "Error determining current directory: %s" err))
        | (d, None) => (d, None)
        end
    | arg0 :: _ =>
        match Abs arg0 w with
        | (d, Some err) => (d, Some (Errorf ("Error: " ++ arg0 ++ " is not a valid path: %s") err))
        | (d, None) => (d, None)
        end
    end in
  match err with
  | Some err => (Returns (None, Some err), w)
  | None =>
      let journal := setRootDir journal dir in
      let '(gpgid, err) := ReadFile (fs w) (filepath.Join [RootDir journal; ".gpgid"]) in
      if match err with Some err => IsNotExist err | None => false end
      then (Exits 0, Println "Journal directory is not initialised. Run journal init." w)
      else
        let journal := setReceiver journal (strings.TrimSpace gpgid) in
        match Walk (fs w) (RootDir journal) walkFile journal with
        | Returns (Some err, _) => (Returns (None, Some err), w)
        | Returns (None, journal) => (Returns (Some journal, None), w)
        | Panics p => (Panics p, w)
        | Exits code => (Exits code, w)
        | Diverges => (Diverges, w)
        end
  end.

(** The first loop of [Unlock]: every pair is decrypted, then hidden. *)
Fixpoint unlockRange (j : Journal) (files : list FilePair) (w : World)
  : option error * World :=
  match files with
  | [] => (None, w)
  | f :: files' =>
      match Decrypt f j w with
      | (Some err, w) => (Some (Errorf ("Error decrypting file " ++ enc f ++ ": %s") err), w)
      | (None, w) =>
          match LeaveFootprint f w with
          | (Some err, w) =>
              (Some (Errorf ("Error creating file footprint " ++ enc f ++ ": %s") err), w)
          | (None, w) => unlockRange j files' w
          end
      end
  end.

Definition Unlock (j : Journal) (w : World) : outcome (option error) * World :=
  match unlockRange j (Files j) w with
  | (Some err, w) => (Returns (Some err), w)
  | (None, w) =>
      match journal.ChecklistFromDir md5sum (fs w) (RootDir j) nonHiddenFilesFilter with
      | Returns (_, Some err) =>
          (Returns (Some (Errorf "Error reading checklist from dir: %s" err)), w)
      | Returns (checklist, None) =>
          match Create (filepath.Join [RootDir j; ".check"]) (fs w) with
          | ((_, Some err), fs') =>
              (Returns (Some (Errorf "Error creating checklist file: %s" err)), setFS w fs')
          | ((checkfile, None), fs') =>
              let checkWriter := bufio.NewWriter checkfile in
              match checklist with
              | None => (Panics NilDereference, setFS w fs')
              | Some checklist =>
                  match journal.Write checkWriter fs' checklist with
                  | ((Some err, _, fs'), _) =>
                      (Returns (Some (Errorf "Error writing checklist file: %s" err)),
                       setFS w fs')
                  | ((None, checkWriter, fs'), _) =>
                      let '(_, _, fs') := bufio.Flush checkWriter fs' in
                      (Returns None, setFS w fs')
                  end
              end
          end
      | Panics p => (Panics p, w)
      | Exits code => (Exits code, w)
      | Diverges => (Diverges, w)
      end
  end.

(** The closure [hasChanged] of [Lock]. *)
Fixpoint hasChanged (changes : list string) (path : string) : bool :=
  match changes with
  | [] => false
  | changed :: changes' =>
      if String.eqb path changed then true else hasChanged changes' path
  end.

(** The second loop of [Lock]: every pair is reset or encrypted again.  The
    source hands the pair itself to [hasChanged], which takes a path; the
    path of a pair that [changes] can hold is its plaintext path, the one
    the checklist fingerprints. *)
Fixpoint lockRange (j : Journal) (changes : list string) (files : list FilePair)
    (w : World) : option error * World :=
  match files with
  | [] => (None, w)
  | file :: files' =>
      if negb (hasChanged changes (plain file))
      then let '(_, w) := Reset file w in lockRange j changes files' w
      else
        match Encrypt file j w with
        | (Some err, w) => (Some err, w)
        | (None, w) =>
            match RemoveFootprint file w with
            | (Some err, w) => (Some err, w)
            | (None, w) => lockRange j changes files' w
            end
        end
  end.

(** [Lock] hands [ChecklistFromReader] a [bufio.Reader] over the file;
    [bufio.NewReader] on a reader of the default size returns that reader,
    so the file is read through one buffer. *)
Definition Lock (j : Journal) (w : World) : outcome (option error) * World :=
  match Open (filepath.Join [RootDir j; ".check"]) (fs w) with
  | (_, Some err) =>
      (Returns (Some (Errorf "Could not find open checklist file: %s" err)), w)
  | (checkfile, None) =>
      match journal.ChecklistFromReader checkfile with
      | Returns (_, Some err) =>
          (Returns (Some (Errorf "Could not read from checklist file: %s" err)), w)
      | Returns (None, None) => (Panics NilDereference, w)
      | Returns (Some checklist, None) =>
          match journal.Diff md5sum (fs w) checklist with
          | ((_, Some err), _) =>
              (Returns (Some (Errorf "Could not calculate file changes: %s" err)), w)
          | ((changes, None), _) =>
              let '(err, w) := lockRange j changes (Files j) w in
              (Returns err, w)
          end
      | Panics p => (Panics p, w)
      | Exits code => (Exits code, w)
      | Diverges => (Diverges, w)
      end
  end.

Definition Status (j : Journal) (w : World) : option error * World := (None, w).


End Journal.

End main.

(** ** Package [main]: the revision whose [Unlock] is a pipeline of goroutines *)

Module pipeline.

Import os.

Record FilePair := mkFilePair {
  enc : string;
  plain : string;
  plainHash : string
}.

Record Journal := mkJournal {
  RootDir : string;
  Files : list FilePair;
  encryptedFileExt : string;
  gpgCommand : string;
  gpgReceiver : string
}.

Definition NewFilePair (enc plain : string) : FilePair :=
  mkFilePair enc plain "".

(** Where the main goroutine of [Unlock] stands: before [os.Create], before
    [wg.Add], sending the pairs still to enqueue, at [wg.Wait], before
    [Flush], before [Close], returned. *)
Inductive mainPc :=
| AtCreate
| AtAdd
| AtEnqueue (rest : list FilePair)
| AtWait
| AtFlush
| AtClose
| Returned.

(** Where a worker goroutine stands in its loop: receiving from its channel,
    holding the pair it received, or sending the pair downstream. *)
Inductive worker :=
| Receiving
| Holding (fp : FilePair)
| Sending (fp : FilePair).

(** The process during [Unlock]: the world, the main goroutine, the three
    buffered channels (oldest pair first), the three workers, the counter of
    the wait group, the writer of the checksum file once it is made, and the
    exit status once a goroutine has called [os.Exit]. *)
Record state := mkState {
  world : World;
  pc : mainPc;
  decryptCh : list FilePair;
  hashCh : list FilePair;
  chksumCh : list FilePair;
  decryptW : worker;
  hashW : worker;
  chksumW : worker;
  wg : Z;
  chkWriter : option bufio.Writer;
  exited : option Z
}.

Definition decryptCap : nat := 10.
Definition hashCap : nat := 10.
Definition chksumCap : nat := 100.

Inductive actor := Main | DecryptWorker | HashWorker | ChecksumWorker.

Section Unlock.

Variable md5sum : string -> string.
Variable gpgDecrypt : string -> string -> option string.

Definition Decrypt (fp : FilePair) (j : Journal) (w : World) : option error * World :=
  let recipient := main.quote ++ gpgReceiver j ++ main.quote in
  let args := ["-d"; "--batch"; "--yes";
               "-r" ++ recipient;
               "-o" ++ plain fp;
               enc fp] in
  let w := main.Printf ("Executing " ++ gpgCommand j ++ " " ++ strings.Join args " "
                        ++ main.newline) w in
  Run (gpgCommand j) args (main.gpgFS gpgDecrypt recipient (enc fp) (plain fp)) w.

(** [CalculateHash]: the output of the external [md5 -r] on the plaintext
    becomes the pair's [plainHash]. *)
Definition CalculateHash (fp : FilePair) (j : Journal) (w : World)
  : option error * FilePair * World :=
  let args := ["-r"; plain fp] in
  let w := logExec "md5" args w in
  match ReadFile (fs w) (plain fp) with
  | (_, Some _) => (Some (ExitError "md5"), fp, w)
  | (content, None) =>
      let out := md5sum content ++ " " ++ plain fp ++ main.newline in
      (None, mkFilePair (enc fp) (plain fp) out, w)
  end.

Definition init (j : Journal) (w : World) : state :=
  mkState w AtCreate [] [] [] Receiving Receiving Receiving 0 None None.

Definition exit (s : state) (msg : string) (code : Z) : state :=
  mkState (main.Printf msg (world s)) (pc s) (decryptCh s) (hashCh s) (chksumCh s)
          (decryptW s) (hashW s) (chksumW s) (wg s) (chkWriter s) (Some code).

(** One statement of the main goroutine; [None] when it is blocked or done. *)
Definition stepMain (j : Journal) (s : state) : option state :=
  match pc s with
  | AtCreate =>
      match Create (filepath.Join [RootDir j; ".check"]) (fs (world s)) with
      | ((_, Some err), _) =>
          Some (exit s "Error opening checksum file for writing: %s" 1)
      | ((chkFile, None), fs') =>
          Some (mkState (setFS (world s) fs') AtAdd (decryptCh s) (hashCh s) (chksumCh s)
                        (decryptW s) (hashW s) (chksumW s) (wg s)
                        (Some (bufio.NewWriter chkFile)) None)
      end
  | AtAdd =>
      Some (mkState (world s) (AtEnqueue (Files j)) (decryptCh s) (hashCh s) (chksumCh s)
                    (decryptW s) (hashW s) (chksumW s)
                    (wg s + Z.of_nat (List.length (Files j))) (chkWriter s) None)
  | AtEnqueue [] =>
      Some (mkState (world s) AtWait (decryptCh s) (hashCh s) (chksumCh s)
                    (decryptW s) (hashW s) (chksumW s) (wg s) (chkWriter s) None)
  | AtEnqueue (file :: rest) =>
      if Nat.ltb (List.length (decryptCh s)) decryptCap
      then Some (mkState (world s) (AtEnqueue rest) (decryptCh s ++ [file]) (hashCh s)
                         (chksumCh s) (decryptW s) (hashW s) (chksumW s) (wg s)
                         (chkWriter s) None)
      else None
  | AtWait =>
      if Z.eqb (wg s) 0
      then Some (mkState (world s) AtFlush (decryptCh s) (hashCh s) (chksumCh s)
                         (decryptW s) (hashW s) (chksumW s) (wg s) (chkWriter s) None)
      else None
  | AtFlush =>
      match chkWriter s with
      | None => None
      | Some b =>
          let '(_, b', fs') := bufio.Flush b (fs (world s)) in
          Some (mkState (setFS (world s) fs') AtClose (decryptCh s) (hashCh s) (chksumCh s)
                        (decryptW s) (hashW s) (chksumW s) (wg s) (Some b') None)
      end
  | AtClose =>
      Some (mkState (world s) Returned (decryptCh s) (hashCh s) (chksumCh s)
                    (decryptW s) (hashW s) (chksumW s) (wg s) (chkWriter s) None)
  | Returned => None
  end.

(** One statement of the goroutine that decrypts.  What [log.Printf] writes
    to the standard error is not kept. *)
Definition stepDecrypt (j : Journal) (s : state) : option state :=
  match decryptW s, decryptCh s with
  | Receiving, fp :: ch =>
      Some (mkState (world s) (pc s) ch (hashCh s) (chksumCh s)
                    (Holding fp) (hashW s) (chksumW s) (wg s) (chkWriter s) None)
  | Receiving, [] => None
  | Holding fp, _ =>
      match Decrypt fp j (world s) with
      | (Some err, w) =>
          Some (exit (mkState w (pc s) (decryptCh s) (hashCh s) (chksumCh s)
                              (decryptW s) (hashW s) (chksumW s) (wg s) (chkWriter s) None)
                     ("Error decrypting file " ++ enc fp ++ ": %s") 1)
      | (None, w) =>
          Some (mkState w (pc s) (decryptCh s) (hashCh s) (chksumCh s)
                        (Sending fp) (hashW s) (chksumW s) (wg s) (chkWriter s) None)
      end
  | Sending fp, _ =>
      if Nat.ltb (List.length (hashCh s)) hashCap
      then Some (mkState (world s) (pc s) (decryptCh s) (hashCh s ++ [fp]) (chksumCh s)
                         Receiving (hashW s) (chksumW s) (wg s) (chkWriter s) None)
      else None
  end.

(** One statement of the goroutine that hashes. *)
Definition stepHash (j : Journal) (s : state) : option state :=
  match hashW s, hashCh s with
  | Receiving, fp :: ch =>
      Some (mkState (world s) (pc s) (decryptCh s) ch (chksumCh s)
                    (decryptW s) (Holding fp) (chksumW s) (wg s) (chkWriter s) None)
  | Receiving, [] => None
  | Holding fp, _ =>
      match CalculateHash fp j (world s) with
      | (Some err, _, w) =>
          Some (exit (mkState w (pc s) (decryptCh s) (hashCh s) (chksumCh s)
                              (decryptW s) (hashW s) (chksumW s) (wg s) (chkWriter s) None)
                     ("Error calculating file hash " ++ enc fp ++ ": %s") 1)
      | (None, fp', w) =>
          Some (mkState w (pc s) (decryptCh s) (hashCh s) (chksumCh s)
                        (decryptW s) (Sending fp') (chksumW s) (wg s) (chkWriter s) None)
      end
  | Sending fp, _ =>
      if Nat.ltb (List.length (chksumCh s)) chksumCap
      then Some (mkState (world s) (pc s) (decryptCh s) (hashCh s) (chksumCh s ++ [fp])
                         (decryptW s) Receiving (chksumW s) (wg s) (chkWriter s) None)
      else None
  end.

(** One statement of the goroutine that writes the checksums; it is started
    once the writer exists. *)
Definition stepChecksum (j : Journal) (s : state) : option state :=
  match chkWriter s with
  | None => None
  | Some b =>
      match chksumW s, chksumCh s with
      | Receiving, fp :: ch =>
          Some (mkState (world s) (pc s) (decryptCh s) (hashCh s) ch
                        (decryptW s) (hashW s) (Holding fp) (wg s) (chkWriter s) None)
      | Receiving, [] => None
      | Holding fp, _ =>
          let '(_, b', fs') := bufio.Write b (plainHash fp) (fs (world s)) in
          Some (mkState (setFS (world s) fs') (pc s) (decryptCh s) (hashCh s) (chksumCh s)
                        (decryptW s) (hashW s) (Sending fp) (wg s) (Some b') None)
      | Sending fp, _ =>
          Some (mkState (world s) (pc s) (decryptCh s) (hashCh s) (chksumCh s)
                        (decryptW s) (hashW s) Receiving (wg s - 1) (chkWriter s) None)
      end
  end.

(** The statement [a] runs next; nothing runs once the process has exited
    or [Unlock] has returned. *)
Definition stepOf (j : Journal) (a : actor) (s : state) : option state :=
  match exited s, pc s with
  | Some _, _ => None
  | None, Returned => None
  | None, _ =>
      match a with
      | Main => stepMain j s
      | DecryptWorker => stepDecrypt j s
      | HashWorker => stepHash j s
      | ChecksumWorker => stepChecksum j s
      end
  end.

Inductive step (j : Journal) : state -> state -> Prop :=
| step_actor a s s' : stepOf j a s = Some s' -> step j s s'.

Inductive reachable (j : Journal) (w : World) : state -> Prop :=
| reachable_init : reachable j w (init j w)
| reachable_step s s' : reachable j w s -> step j s s' -> reachable j w s'.

(** The run of a schedule: the actors take their statements in the order
    given; [None] when one of them cannot move. *)
Fixpoint run (j : Journal) (schedule : list actor) (s : state) : option state :=
  match schedule with
  | [] => Some s
  | a :: schedule' =>
      match stepOf j a s with
      | Some s' => run j schedule' s'
      | None => None
      end
  end.

End Unlock.

(** [Encrypt] of this revision, for the encryption capability [gpgEncrypt]. *)
Definition Encrypt (gpgEncrypt : string -> string -> option string)
    (fp : FilePair) (j : Journal) (w : World) : option error * World :=
  let recipient := main.quote ++ gpgReceiver j ++ main.quote in
  let args := ["-e"; "--batch"; "--yes";
               "-o" ++ enc fp;
               "-r" ++ recipient;
               plain fp] in
  let w := main.Printf ("Executing " ++ gpgCommand j ++ " " ++ strings.Join args " "
                        ++ main.newline) w in
  Run (gpgCommand j) args (main.gpgFS gpgEncrypt recipient (plain fp) (enc fp)) w.

(** [Lock] and [Status] of this revision do nothing. *)
Definition Lock (j : Journal) (w : World) : option error * World := (None, w).

Definition Status (j : Journal) (w : World) : option error * World := (None, w).

(** The walk function of this revision. *)
Definition walkFile (v : visit) (j : Journal) : outcome (option error * Journal) :=
  let path := vpath v in
  match verr v with
  | Some err => Exits 1
  | None =>
      if negb (String.eqb (filepath.Ext path) (encryptedFileExt j))
      then Returns (None, j)
      else
        let fp := NewFilePair path (strings.TrimSuffix path (encryptedFileExt j)) in
        Returns (None, mkJournal (RootDir j) (Files j ++ [fp]) (encryptedFileExt j)
                                 (gpgCommand j) (gpgReceiver j))
  end.

Definition NewJournalFromArgs (args : list string) (w : World)
  : outcome (option Journal * option error) * World :=
  let journal := mkJournal "" [] main.DefaultFileExt "gpg" "" in
  let '(dir, err) :=
    match args with
    | [] =>
        match Getwd w with
        | (d, Some err) => (d, Some (Errorf "Error determining current directory: %s" err))
        | (d, None) => (d, None)
        end
    | arg0 :: _ =>
        match Abs arg0 w with
        | (d, Some err) => (d, Some (Errorf ("Error: " ++ arg0 ++ " is not a valid path: %s") err))
        | (d, None) => (d, None)
        end
    end in
  match err with
  | Some err => (Returns (None, Some err), w)
  | None =>
      let journal := mkJournal dir (Files journal) (encryptedFileExt journal)
                               (gpgCommand journal) (gpgReceiver journal) in
      match Walk (fs w) (RootDir journal) walkFile journal with
      | Returns (Some err, _) => (Returns (None, Some err), w)
      | Returns (None, journal) => (Returns (Some journal, None), w)
      | Panics p => (Panics p, w)
      | Exits code => (Exits code, w)
      | Diverges => (Diverges, w)
      end
  end.

End pipeline.

(** * Vocabulary of the properties *)

Section Vocabulary.

Import journal.

(** The bytes [Write] sends to an empty [bytes.Buffer]. *)
Definition Serialize (c : Checklist) : string :=
  snd (fst (fst (Write (W := io.Buffer) "" ∅ c))).

(** The store a call of [ChecklistFromReader] hands to its caller, if any. *)
Definition parsedStore (o : outcome (option Checklist * option error)) : option Checklist :=
  match o with
  | Returns (Some c, _) => Some c
  | _ => None
  end.

(** The call has ended: it returned, panicked or ended the process. *)
Definition ended {A : Type} (o : outcome A) : bool :=
  match o with
  | Diverges => false
  | _ => true
  end.

Fixpoint contains (c : ascii) (s : string) : bool :=
  match s with
  | EmptyString => false
  | String c' s' => Ascii.eqb c' c || contains c s'
  end.

(** A line that [ReadLine] returns whole: it holds no line feed and fits
    the buffer. *)
Definition wholeLine (line : string) : bool :=
  negb (contains strings.LF line) && Nat.ltb (String.length line) bufio.defaultBufSize.

(** The record of an entry as the specification writes it: fingerprint, one
    space, path. *)
Definition record (f : file) : string := hash f ++ " " ++ path f.

(** A stream of records, one per line. *)
Fixpoint records (l : list file) : string :=
  match l with
  | [] => ""
  | f :: l' => record f ++ main.newline ++ records l'
  end.

(** The process can read the file at [p]. *)
Definition canRead (fs : gmap string disk.node) (p : string) : bool :=
  match fs !! p with
  | Some (disk.File _ true) => true
  | _ => false
  end.

(** The fingerprint of the bytes now at the entry's path differs from the
    fingerprint the entry stores. *)
Definition fingerprintDiffers (md5sum : string -> string)
    (fs : gmap string disk.node) (f : file) : bool :=
  match fs !! path f with
  | Some (disk.File content true) => negb (String.eqb (md5sum content) (hash f))
  | _ => false
  end.

(** The stored paths whose fingerprint differs, in stored order. *)
Definition changedPaths (md5sum : string -> string)
    (fs : gmap string disk.node) (c : Checklist) : list string :=
  map path (List.filter (fingerprintDiffers md5sum fs) (files c)).

(** The first entry of the store whose file is missing or cannot be read. *)
Definition firstUnreadable (fs : gmap string disk.node) (c : Checklist) : option file :=
  List.find (fun f => negb (canRead fs (path f))) (files c).

(** The error of reading a file that is missing or cannot be read. *)
Definition readFailure (fs : gmap string disk.node) (p : string) : error :=
  match fs !! p with
  | Some disk.Directory => PathError "read" p EISDIR
  | Some (disk.File _ _) => PathError "open" p EACCES
  | None => PathError "open" p ENOENT
  end.

(** Collaborators for the examples: a digest that brackets the bytes, a
    cipher that marks them. *)
Definition sampleDigest (s : string) : string := "<" ++ s ++ ">".

Definition sampleEncrypt (recipient plaintext : string) : option string :=
  if String.eqb plaintext "" then None else Some ("gpg:" ++ plaintext).

Definition sampleDecrypt (recipient ciphertext : string) : option string :=
  if strings.HasPrefix ciphertext "gpg:"
  then Some (strings.TrimPrefix ciphertext "gpg:")
  else None.

(** The tree [Unlock] leaves behind for one pair, the plaintext and the
    hidden encrypted artifact, and the store its scan returns. *)
Definition sampleTree : gmap string disk.node :=
  list_to_map [("/j", disk.Directory);
               ("/j/a", disk.File "A" true);
               ("/j/.a.gpg", disk.File "gpg:A" true)].

Definition sampleScan : Checklist :=
  mkChecklist [mkFile "/j/.a.gpg" "<gpg:A>"].

(** A world where the recipient file exists and cannot be read. *)
Definition sampleDenied : os.World :=
  os.mkWorld (<["/j/.gpgid" := disk.File "me" false]> sampleTree) (Some "/j") [] [].

End Vocabulary.

Section LockVocabulary.

Import os main.

(** The two names of the encrypted artifact of a pair: visible and hidden. *)
Definition artifactPaths (f : FilePair) : list string := [enc f; footprint f].

(** The state [Unlock] leaves a pair in: the encrypted artifact is a file
    under its hidden name and nothing has its visible name. *)
Definition hiddenPair (fs : gmap string node) (f : FilePair) : Prop :=
  fs !! enc f = None /\ exists c r, fs !! footprint f = Some (File c r).

(** No two names of encrypted artifacts coincide and no plaintext path is
    one of them. *)
Definition separatePairs (files : list FilePair) : Prop :=
  List.NoDup (flat_map artifactPaths files)
  /\ forall f, In f files -> ~ In (plain f) (flat_map artifactPaths files).

(** The arguments [Encrypt] runs [gpg] with. *)
Definition recipientArg (j : Journal) : string := quote ++ gpgReceiver j ++ quote.

(** The postcondition of Lock as the specification states it: every pair
    has its one visible artifact, and neither its hidden marker nor its
    plaintext remains. *)
Definition lockedAsSpecified (fs : gmap string node) (files : list FilePair) : Prop :=
  forall f, In f files ->
    is_Some (fs !! enc f) /\ fs !! footprint f = None /\ fs !! plain f = None.

(** The journal of the scenario of the specification after [Unlock]: the
    plaintexts [a] and [b], the hidden artifacts, and [b] edited since. *)
Definition sampleJournal : Journal :=
  mkJournal "/j"
            [mkFilePair "/j/a.gpg" "/j/a" false; mkFilePair "/j/b.gpg" "/j/b" false]
            DefaultFileExt "gpg" "me".

Definition sampleUnlocked : World :=
  mkWorld (list_to_map [("/j", Directory);
                        ("/j/.gpgid", File "me" true);
                        ("/j/a", File "A" true);
                        ("/j/b", File "B2" true);
                        ("/j/.a.gpg", File "gpg:A" true);
                        ("/j/.b.gpg", File "gpg:B" true)])
          (Some "/j") [] [].

(** The state the loop of [Lock] leaves when [b] is the changed path. *)
Definition sampleLocked : World :=
  snd (lockRange sampleEncrypt sampleJournal ["/j/b"] (Files sampleJournal) sampleUnlocked).

End LockVocabulary.

Section UnlockVocabulary.

Import os.

(** The checklist path of a journal. *)
Definition checkPath (root : string) : string := filepath.Join [root; ".check"].

(** A journal of one pair whose encrypted artifact [gpg] cannot decrypt,
    with the checklist of an earlier [Unlock] still there. *)
Definition sampleStale : World :=
  mkWorld (list_to_map [("/j", Directory);
                        ("/j/.check", File "<old> /j/a" true);
                        ("/j/a.gpg", File "damaged" true)])
          (Some "/j") [] [].

(** The same journal before any [Unlock], its artifact intact. *)
Definition sampleSealed : World :=
  mkWorld (list_to_map [("/j", Directory);
                        ("/j/a.gpg", File "gpg:A" true)])
          (Some "/j") [] [].

Definition samplePipeline : pipeline.Journal :=
  pipeline.mkJournal "/j" [pipeline.NewFilePair "/j/a.gpg" "/j/a"] ".gpg" "gpg" "".

Definition sampleSequential : main.Journal :=
  main.mkJournal "/j" [main.mkFilePair "/j/a.gpg" "/j/a" false] ".gpg" "gpg" "".

(** What holds of the pipeline all along: until the main goroutine has
    created the checksum file no worker has anything to work on and no
    command has run; from then on the checksum file exists. *)
Definition createdFirst (j : pipeline.Journal) (w : World) (s : pipeline.state) : Prop :=
  (pipeline.pc s = pipeline.AtCreate ->
   pipeline.decryptCh s = [] /\ pipeline.hashCh s = []
   /\ pipeline.decryptW s = pipeline.Receiving /\ pipeline.hashW s = pipeline.Receiving
   /\ pipeline.chkWriter s = None
   /\ execs (pipeline.world s) = execs w)
  /\ (pipeline.pc s <> pipeline.AtCreate ->
      is_Some (fs (pipeline.world s) !! checkPath (pipeline.RootDir j))).

End UnlockVocabulary.

Section CoverageVocabulary.

Import journal os.

(** The strings of a list one after the other, nothing between them. *)
Fixpoint concatAll (l : list string) : string :=
  match l with
  | [] => ""
  | x :: l' => x ++ concatAll l'
  end.

(** The filter of a scan accepts the visit. *)
Definition accepted (filter : string -> option FileInfo -> bool) (v : visit) : bool :=
  filter (vpath v) (vinfo v).

(** The entry a scan records for a visit: the path and the fingerprint of
    the bytes now at the path. *)
Definition entryOf (md5sum : string -> string) (fs : gmap string node) (v : visit) : file :=
  mkFile (vpath v) (md5sum (fst (ReadFile fs (vpath v)))).

(** The visit is accepted and its file cannot be read. *)
Definition stopsScan (fs : gmap string node)
    (filter : string -> option FileInfo -> bool) (v : visit) : bool :=
  accepted filter v && negb (canRead fs (vpath v)).

(** The call returned with a nil error. *)
Definition completed (o : outcome (option error)) : bool :=
  match o with
  | Returns None => true
  | _ => false
  end.


(** The visit is of a path whose extension is the encrypted-file suffix. *)
Definition isArtifact (ext : string) (v : visit) : bool :=
  String.eqb (filepath.Ext (vpath v)) ext.

(** The root directory the arguments of the command name. *)
Definition rootOf (args : list string) (w : World) : string :=
  match args with
  | [] => fst (Getwd w)
  | arg0 :: _ => fst (Abs arg0 w)
  end.



(** The scenario of the specification before [Unlock]: two sealed pairs. *)
Definition sampleSealedPairs : World :=
  mkWorld (list_to_map [("/j", Directory);
                        ("/j/.gpgid", File "me" true);
                        ("/j/a.gpg", File "gpg:A" true);
                        ("/j/b.gpg", File "gpg:B" true)])
          (Some "/j") [] [].




(** The pairs a worker of the pipeline holds: one while it works on a pair
    or waits to send it, none while it waits to receive. *)
Definition held (k : pipeline.worker) : list pipeline.FilePair :=
  match k with
  | pipeline.Receiving => []
  | pipeline.Holding fp => [fp]
  | pipeline.Sending fp => [fp]
  end.

(** The number of pairs in the pipeline: in the channels and with the
    workers. *)
Definition inFlight (s : pipeline.state) : nat :=
  List.length (pipeline.decryptCh s) + List.length (held (pipeline.decryptW s))
  + List.length (pipeline.hashCh s) + List.length (held (pipeline.hashW s))
  + List.length (pipeline.chksumCh s) + List.length (held (pipeline.chksumW s)).

(** The wait group counts the pairs that are not written yet: those still
    to enqueue and those in the pipeline. *)
Definition counted (s : pipeline.state) : Prop :=
  match pipeline.pc s with
  | pipeline.AtCreate | pipeline.AtAdd => pipeline.wg s = 0%Z /\ inFlight s = 0
  | pipeline.AtEnqueue rest =>
      pipeline.wg s = Z.of_nat (List.length rest + inFlight s)
  | pipeline.AtWait => pipeline.wg s = Z.of_nat (inFlight s)
  | pipeline.AtFlush | pipeline.AtClose | pipeline.Returned =>
      pipeline.wg s = 0%Z /\ inFlight s = 0
  end.

(** The writer of the checksum file exists from [os.Create] on. *)
Definition started (s : pipeline.state) : Prop :=
  pipeline.pc s = pipeline.AtCreate \/ is_Some (pipeline.chkWriter s).

(** The pairs the main goroutine has still to enqueue. *)
Definition pending (j : pipeline.Journal) (pc : pipeline.mainPc) : list pipeline.FilePair :=
  match pc with
  | pipeline.AtCreate | pipeline.AtAdd => pipeline.Files j
  | pipeline.AtEnqueue rest => rest
  | _ => []
  end.

(** The statements the main goroutine has still to run, the enqueuing
    apart. *)
Definition mainLeft (pc : pipeline.mainPc) : nat :=
  match pc with
  | pipeline.AtCreate => 6
  | pipeline.AtAdd => 5
  | pipeline.AtEnqueue _ => 4
  | pipeline.AtWait => 3
  | pipeline.AtFlush => 2
  | pipeline.AtClose => 1
  | pipeline.Returned => 0
  end.

(** The statements a worker has still to run on the pair it holds, counted
    from the statements [after] its sending. *)
Definition workerLeft (after : nat) (k : pipeline.worker) : nat :=
  match k with
  | pipeline.Receiving => 0
  | pipeline.Holding _ => after + 2
  | pipeline.Sending _ => after + 1
  end.

(** The statements left to run: ten for a pair still to enqueue, one less
    for each stage it has passed. *)
Definition stepsLeft (j : pipeline.Journal) (s : pipeline.state) : nat :=
  match pipeline.exited s with
  | Some _ => 0
  | None =>
      mainLeft (pipeline.pc s)
      + 10 * List.length (pending j (pipeline.pc s))
      + 9 * List.length (pipeline.decryptCh s) + workerLeft 6 (pipeline.decryptW s)
      + 6 * List.length (pipeline.hashCh s) + workerLeft 3 (pipeline.hashW s)
      + 3 * List.length (pipeline.chksumCh s) + workerLeft 0 (pipeline.chksumW s)
  end.

(** The two paths of a pair; the pipeline changes the fingerprint of a
    pair and nothing else of it. *)
Definition key (fp : pipeline.FilePair) : string * string :=
  (pipeline.enc fp, pipeline.plain fp).

(** The pair a worker is about to send. *)
Definition sent (k : pipeline.worker) : list pipeline.FilePair :=
  match k with
  | pipeline.Sending fp => [fp]
  | _ => []
  end.

(** The pairs in the order they go through the pipeline, those furthest
    first: the pairs [done], then the pairs with the workers and in the
    channels, then the pairs still to enqueue. *)
Definition inOrder (j : pipeline.Journal) (s : pipeline.state)
    (done : list pipeline.FilePair) : list pipeline.FilePair :=
  app done
   (app (held (pipeline.chksumW s))
    (app (pipeline.chksumCh s)
     (app (held (pipeline.hashW s))
      (app (pipeline.hashCh s)
       (app (held (pipeline.decryptW s))
        (app (pipeline.decryptCh s) (pending j (pipeline.pc s)))))))).

(** The pairs past the hashing. *)
Definition pastHash (s : pipeline.state) (done : list pipeline.FilePair)
  : list pipeline.FilePair :=
  app done
   (app (held (pipeline.chksumW s))
    (app (pipeline.chksumCh s) (sent (pipeline.hashW s)))).

(** The pairs past the decryption. *)
Definition pastDecrypt (s : pipeline.state) (done : list pipeline.FilePair)
  : list pipeline.FilePair :=
  app done
   (app (held (pipeline.chksumW s))
    (app (pipeline.chksumCh s)
     (app (held (pipeline.hashW s))
      (app (pipeline.hashCh s) (sent (pipeline.decryptW s)))))).

(** The line [md5 -r] prints now for the plaintext of a pair. *)
Definition md5Line (md5sum : string -> string) (fs : gmap string node)
    (fp : pipeline.FilePair) : string :=
  md5sum (fst (ReadFile fs (pipeline.plain fp))) ++ " " ++ pipeline.plain fp ++ main.newline.

(** The fingerprint of the pair is the line of its plaintext, which can be
    read. *)
Definition hashed (md5sum : string -> string) (fs : gmap string node)
    (fp : pipeline.FilePair) : Prop :=
  snd (ReadFile fs (pipeline.plain fp)) = None
  /\ pipeline.plainHash fp = md5Line md5sum fs fp.

(** The plaintext of the pair holds what [gpg] decrypts from the artifact
    the pair had at first. *)
Definition decrypted (gpgDecrypt : string -> string -> option string)
    (j : pipeline.Journal) (w : World) (fs : gmap string node)
    (fp : pipeline.FilePair) : Prop :=
  exists ct pt,
    os.fs w !! pipeline.enc fp = Some (File ct true)
    /\ gpgDecrypt (main.quote ++ pipeline.gpgReceiver j ++ main.quote) ct = Some pt
    /\ fs !! pipeline.plain fp = Some (File pt true).

(** The paths the pipeline writes: the checksum file and the plaintexts. *)
Definition written (j : pipeline.Journal) : list string :=
  checkPath (pipeline.RootDir j) :: map pipeline.plain (pipeline.Files j).

(** The paths the pipeline writes differ from each other, and no artifact
    is at one of them. *)
Definition separate (j : pipeline.Journal) : Prop :=
  List.NoDup (written j)
  /\ forall fp, In fp (pipeline.Files j) -> ~ In (pipeline.enc fp) (written j).

(** The writer of the checksum file is sound, and the file and the buffer
    hold between them the fingerprints of [l]. *)
Definition holds (j : pipeline.Journal) (s : pipeline.state)
    (l : list pipeline.FilePair) : Prop :=
  exists b content,
    pipeline.chkWriter s = Some b
    /\ bufio.wr b = checkPath (pipeline.RootDir j)
    /\ bufio.werr b = None
    /\ fs (pipeline.world s) !! checkPath (pipeline.RootDir j) = Some (File content true)
    /\ content ++ bufio.buf b = concatAll (map pipeline.plainHash l)
    /\ (pipeline.pc s = pipeline.AtClose \/ pipeline.pc s = pipeline.Returned ->
        bufio.buf b = "").

(** What holds of the pipeline all along, for the world [w] in which
    [Unlock] was called. *)
Definition recorded (md5sum : string -> string)
    (gpgDecrypt : string -> string -> option string)
    (j : pipeline.Journal) (w : World) (s : pipeline.state) : Prop :=
  match pipeline.exited s with
  | Some _ => pipeline.pc s <> pipeline.Returned
  | None =>
      exists done,
        map key (inOrder j s done) = map key (pipeline.Files j)
        /\ (forall fp, In fp (pastHash s done) -> hashed md5sum (fs (pipeline.world s)) fp)
        /\ (forall fp, In fp (pastDecrypt s done) ->
            decrypted gpgDecrypt j w (fs (pipeline.world s)) fp)
        /\ (forall p, ~ In p (written j) -> fs (pipeline.world s) !! p = fs w !! p)
        /\ (pipeline.pc s = pipeline.AtCreate -> done = [])
        /\ (pipeline.pc s <> pipeline.AtCreate ->
            holds j s (app done (sent (pipeline.chksumW s))))
  end.

Definition samplePipelinePairs : pipeline.Journal :=
  pipeline.mkJournal "/j" [pipeline.NewFilePair "/j/a.gpg" "/j/a";
                           pipeline.NewFilePair "/j/b.gpg" "/j/b"] ".gpg" "gpg" "me".

(** A schedule in which the workers overlap: the second pair is decrypted
    while the first is hashed and written. *)
Definition sampleSchedule : list pipeline.actor :=
  [pipeline.Main; pipeline.Main; pipeline.Main; pipeline.Main;
   pipeline.DecryptWorker; pipeline.DecryptWorker; pipeline.Main;
   pipeline.DecryptWorker; pipeline.HashWorker; pipeline.DecryptWorker;
   pipeline.HashWorker; pipeline.DecryptWorker; pipeline.HashWorker;
   pipeline.ChecksumWorker; pipeline.DecryptWorker; pipeline.ChecksumWorker;
   pipeline.HashWorker; pipeline.HashWorker; pipeline.ChecksumWorker;
   pipeline.HashWorker; pipeline.ChecksumWorker; pipeline.ChecksumWorker;
   pipeline.ChecksumWorker; pipeline.Main; pipeline.Main; pipeline.Main].

End CoverageVocabulary.

(** * Properties *)

(** ** Reading lines *)

Section ReadLineFacts.

Import bufio.

Lemma ReadSlice_spec (final : error) (size : nat) :
  forall data line rest err,
    ReadSlice final size data = (line, rest, err) ->
    (line ++ rest)%string = data /\
    match err with
    | None => 1 <= String.length line
    | Some e => (e = ErrBufferFull /\ String.length line = size)
                \/ (e = final /\ rest = "")
    end.
Proof.
  induction size as [|n IH]; intros data line rest err H; simpl in H.
  - injection H as <- <- <-. split; [reflexivity | left; split; reflexivity].
  - destruct data as [|c data'].
    + injection H as <- <- <-. split; [reflexivity | right; split; reflexivity].
    + destruct (Ascii.eqb c strings.LF).
      * injection H as <- <- <-. split; [reflexivity | simpl; lia].
      * destruct (ReadSlice final n data') as [[l r] e] eqn:E.
        injection H as <- <- <-.
        destruct (IH _ _ _ _ E) as [Hcat Herr]. split.
        -- rewrite <- Hcat. reflexivity.
        -- destruct e as [e|]; simpl; [|lia].
           destruct Herr as [[-> Hlen]|[-> ->]]; [left | right]; split; auto.
Qed.

Lemma string_length_append (a b : string) :
  String.length (a ++ b) = String.length a + String.length b.
Proof.
  induction a as [|c a IH]; [reflexivity|].
  change (S (String.length (a ++ b)) = S (String.length a) + String.length b).
  now rewrite IH.
Qed.

(** [ReadLine] keeps the size of the buffer and the error of the reader. *)
Lemma ReadLine_reader (b b' : Reader) res :
  ReadLine b = (res, b') ->
  size b' = size b /\ io.final (rd b') = io.final (rd b).
Proof.
  unfold ReadLine.
  destruct (ReadSlice _ _ _) as [[line rest] err].
  destruct err as [[]|];
    repeat match goal with
           | |- context [if ?c then _ else _] => destruct c
           end;
    intros H; injection H as <- <-; split; reflexivity.
Qed.

(** A call of [ReadLine] that returns no error consumes bytes. *)
Lemma ReadLine_progress (b b' : Reader) line isPrefix :
  2 <= size b ->
  io.final (rd b) <> ErrBufferFull ->
  ReadLine b = ((line, isPrefix, None), b') ->
  String.length (io.data (rd b')) < String.length (io.data (rd b)).
Proof.
  intros Hsize Hfinal. unfold ReadLine.
  destruct (ReadSlice _ _ _) as [[l rest] err] eqn:E.
  apply ReadSlice_spec in E as [Hcat Herr].
  rewrite <- Hcat, string_length_append.
  assert (Hfull : String.length l = size b ->
                  String.length (String strings.CR rest) < String.length l + String.length rest
                  /\ String.length rest < String.length l + String.length rest)
    by (simpl; lia).
  destruct err as [e|].
  - destruct Herr as [[-> Hlen]|[-> ->]].
    + specialize (Hfull Hlen).
      destruct (_ && _); intros H; injection H as <- <- <-; simpl; lia.
    + destruct (io.final (rd b)) eqn:F; try congruence;
        (destruct (Nat.eqb (String.length l) 0) eqn:N;
         [ intros H; discriminate H
         | apply Nat.eqb_neq in N;
           destruct (byteIs l _ strings.LF);
           intros H; injection H as <- <- <-; simpl; lia ]).
  - destruct (Nat.eqb (String.length l) 0) eqn:N;
      [apply Nat.eqb_eq in N; lia|].
    destruct (byteIs l _ strings.LF);
      intros H; injection H as <- <- <-; simpl; lia.
Qed.

Lemma NewReader_size (input : io.Reader) : 2 <= size (NewReader input).
Proof. apply Nat.leb_le. vm_compute. reflexivity. Qed.

End ReadLineFacts.

(** ** Parsing a checklist *)

Section ParseFacts.

Import journal bufio.

(** The loop of [ChecklistFromReader] leaves only through [return nil, err]
    or a panic: it never hands a store to its caller. *)
Lemma readLines_no_store (fuel : nat) :
  forall r c, parsedStore (readLines fuel r c) = None.
Proof.
  induction fuel as [|fuel IH]; intros r c; [reflexivity|].
  simpl. destruct (ReadLine r) as [[[line isPrefix] err] r'].
  destruct err as [err|]; [reflexivity|].
  destruct (index _ 1); [reflexivity|].
  destruct (index _ 0); [reflexivity|].
  apply IH.
Qed.

(** With more turns than the reader has bytes, the loop ends. *)
Lemma readLines_ends (fuel : nat) :
  forall r c,
    String.length (io.data (rd r)) < fuel ->
    2 <= size r ->
    io.final (rd r) <> ErrBufferFull ->
    readLines fuel r c <> Diverges.
Proof.
  induction fuel as [|fuel IH]; intros r c Hfuel Hsize Hfinal; [lia|].
  simpl. destruct (ReadLine r) as [[[line isPrefix] err] r'] eqn:E.
  destruct err as [err|]; [discriminate|].
  destruct (index _ 1); [discriminate|].
  destruct (index _ 0); [discriminate|].
  pose proof (ReadLine_progress _ _ _ _ Hsize Hfinal E) as Hlt.
  apply ReadLine_reader in E as [Hs Hf].
  apply IH; [lia | now rewrite Hs | now rewrite Hf].
Qed.

(** [ChecklistFromReader] ends on every reader of a file or of a buffer. *)
Lemma ChecklistFromReader_ends (input : io.Reader) :
  io.final input <> ErrBufferFull ->
  ChecklistFromReader input <> Diverges.
Proof.
  intros Hfinal. unfold ChecklistFromReader.
  apply readLines_ends; [simpl; lia | apply NewReader_size | exact Hfinal].
Qed.

Lemma ChecklistFromReader_ends_witness :
  ChecklistFromReader (io.NewBufferString "0f a") <> Diverges.
Proof. apply ChecklistFromReader_ends. discriminate. Defined.

(** *** Bytes of strings *)

Lemma append_cons (c : ascii) (a b : string) :
  (String c a ++ b)%string = String c (a ++ b).
Proof. reflexivity. Qed.

Lemma append_assoc (a b c : string) :
  ((a ++ b) ++ c)%string = (a ++ (b ++ c))%string.
Proof.
  induction a as [|x a IH]; [reflexivity|].
  now rewrite !append_cons, IH.
Qed.

Lemma get_length_append (a b : string) (c : ascii) :
  String.get (String.length a) (a ++ String c b) = Some c.
Proof. induction a as [|x a IH]; [reflexivity | exact IH]. Qed.

Lemma substring_prefix (a b : string) :
  String.substring 0 (String.length a) (a ++ b) = a.
Proof.
  induction a as [|x a IH]; [destruct b; reflexivity|].
  rewrite append_cons.
  change (String x (String.substring 0 (String.length a) (a ++ b)) = String x a).
  now rewrite IH.
Qed.

Lemma string_snoc (s : string) :
  s = "" \/ exists s' c, s = (s' ++ String c "")%string.
Proof.
  induction s as [|x s IH]; [now left | right].
  destruct IH as [->|(s' & c & ->)].
  - now exists "", x.
  - now exists (String x s'), c.
Qed.

Lemma contains_append (c : ascii) (a b : string) :
  contains c (a ++ b) = contains c a || contains c b.
Proof.
  induction a as [|x a IH]; [reflexivity|].
  rewrite append_cons. simpl. rewrite IH. now rewrite orb_assoc.
Qed.

(** *** Splitting a line *)

Lemma Split_length (sep : ascii) (s : string) :
  1 <= List.length (strings.Split s sep).
Proof.
  induction s as [|c s IH]; simpl; [lia|].
  destruct (Ascii.eqb c sep); simpl; [lia|].
  destruct (strings.Split s sep); simpl in *; lia.
Qed.

Lemma Split_contains (sep : ascii) (s : string) :
  contains sep s = true -> 2 <= List.length (strings.Split s sep).
Proof.
  induction s as [|c s IH]; simpl; [discriminate|].
  destruct (Ascii.eqb c sep); simpl.
  - intros _. pose proof (Split_length sep s). lia.
  - intros H. specialize (IH H).
    destruct (strings.Split s sep); simpl in *; lia.
Qed.

Lemma Split_no_separator (sep : ascii) (s : string) :
  contains sep s = false -> strings.Split s sep = [s].
Proof.
  induction s as [|c s IH]; simpl; [reflexivity|].
  destruct (Ascii.eqb c sep); simpl; [discriminate|].
  intros H. now rewrite (IH H).
Qed.

Lemma index_in_range (arr : list string) (i : nat) :
  i < List.length arr -> exists x, index arr i = inr x.
Proof.
  intros H. unfold index.
  destruct (nth_error arr i) as [x|] eqn:E; [now exists x|].
  apply nth_error_None in E. lia.
Qed.

(** *** One whole line *)

Lemma ReadSlice_whole (final : error) (line : string) :
  forall size rest,
    contains strings.LF line = false ->
    String.length line < size ->
    ReadSlice final size (line ++ String strings.LF rest)
    = ((line ++ String strings.LF "")%string, rest, None).
Proof.
  induction line as [|c line IH]; intros size rest Hlf Hlen.
  - destruct size; [simpl in Hlen; lia | reflexivity].
  - destruct size; [simpl in Hlen; lia|].
    simpl in Hlf. apply orb_false_iff in Hlf as [Hc Hlf].
    rewrite !append_cons. simpl. rewrite Hc.
    rewrite IH by (simpl in Hlen; auto with arith). reflexivity.
Qed.

(** A line that fits the buffer is returned whole, without its line feed and
    without the carriage return before it. *)
Lemma ReadLine_whole (final : error) (size : nat) (line rest : string) :
  contains strings.LF line = false ->
  String.length line < size ->
  exists line',
    ReadLine (mkReader (io.mkReader (line ++ String strings.LF rest) final) size)
    = ((line', false, None), mkReader (io.mkReader rest final) size)
    /\ (line' = line \/ line = (line' ++ String strings.CR "")%string).
Proof.
  intros Hlf Hlen. unfold ReadLine. simpl rd. simpl io.data. simpl io.final. simpl bufio.size.
  rewrite ReadSlice_whole by assumption.
  rewrite string_length_append.
  change (String.length (String strings.LF "")) with 1.
  replace (String.length line + 1 - 1) with (String.length line) by lia.
  replace (Nat.eqb (String.length line + 1) 0) with false
    by (symmetry; apply Nat.eqb_neq; lia).
  unfold byteIs at 1. rewrite get_length_append.
  change (Ascii.eqb strings.LF strings.LF) with true. cbv iota.
  unfold dropLast. rewrite string_length_append.
  change (String.length (String strings.LF "")) with 1.
  destruct (string_snoc line) as [->|(line' & c & ->)].
  - exists "". split; [reflexivity | now left].
  - rewrite string_length_append.
    change (String.length (String c "")) with 1.
    replace (Nat.ltb 1 (String.length line' + 1 + 1)) with true
      by (symmetry; apply Nat.ltb_lt; lia).
    replace (String.length line' + 1 + 1 - 2) with (String.length line') by lia.
    rewrite append_assoc. rewrite append_cons.
    unfold byteIs. rewrite get_length_append.
    destruct (Ascii.eqb c strings.CR) eqn:Ec; simpl andb; cbv beta iota zeta.
    + apply Ascii.eqb_eq in Ec. subst c.
      replace (String.length line' + 1 + 1 - 2) with (String.length line') by lia.
      exists line'. split; [now rewrite (substring_prefix line') | now right].
    + assert (E : String.length line' + 1 + 1 - 1
                  = String.length (line' ++ String c "")%string)
        by (rewrite string_length_append; simpl; lia).
      rewrite E.
      replace (line' ++ String c ("" ++ String strings.LF ""))%string
        with ((line' ++ String c "") ++ String strings.LF "")%string
        by (rewrite append_assoc; reflexivity).
      exists (line' ++ String c "")%string.
      split; [now rewrite (substring_prefix (line' ++ String c "")) | now left].
Qed.

Lemma NewReader_eq (input : io.Reader) :
  NewReader input = mkReader input defaultBufSize.
Proof. unfold NewReader, NewReaderSize. f_equal. Qed.

Lemma wholeLine_spec (line : string) :
  wholeLine line = true ->
  contains strings.LF line = false /\ String.length line < defaultBufSize.
Proof.
  unfold wholeLine. intros H. apply andb_true_iff in H as [Hlf Hlen].
  apply negb_true_iff in Hlf. apply Nat.ltb_lt in Hlen. now split.
Qed.

Lemma readLines_S (fuel : nat) (r : Reader) (c : Checklist) :
  readLines (S fuel) r c =
  let '((line, _, err), r') := ReadLine r in
  match err with
  | Some err => Returns (None, Some err)
  | None =>
      match index (strings.Split line " "%char) 1 with
      | inl p => Panics p
      | inr a1 =>
          match index (strings.Split line " "%char) 0 with
          | inl p => Panics p
          | inr a0 => readLines fuel r' (snd (AddFile a1 a0 c))
          end
      end
  end.
Proof. reflexivity. Qed.

(** At the end of the bytes [ReadLine] returns the reader's error. *)
Lemma ReadLine_EOF (size : nat) :
  1 <= size ->
  ReadLine (mkReader (io.mkReader "" EOF) size)
  = (("", false, Some EOF), mkReader (io.mkReader "" EOF) size).
Proof. destruct size; [lia | reflexivity]. Qed.

Lemma defaultBufSize_pos : 1 <= defaultBufSize.
Proof. apply Nat.leb_le. vm_compute. reflexivity. Qed.

Lemma records_length (l : list file) :
  List.length l <= String.length (records l).
Proof.
  induction l as [|f l IH]; simpl; [lia|].
  rewrite !string_length_append.
  change (String.length main.newline) with 1. lia.
Qed.

(** The turns of the loop over a stream that starts with whole records:
    every record is split and added, and the loop goes on with the bytes
    after them. *)
Lemma readLines_records (final : error) (l : list file) :
  forall fuel tail c,
    Forall (fun f => wholeLine (record f) = true) l ->
    exists c',
      readLines (List.length l + fuel)
                (mkReader (io.mkReader (records l ++ tail) final) defaultBufSize) c
      = readLines fuel (mkReader (io.mkReader tail final) defaultBufSize) c'.
Proof.
  induction l as [|f l IH]; intros fuel tail c Hall.
  - exists c. reflexivity.
  - inversion Hall as [|? ? Hf Hl]; subst.
    apply wholeLine_spec in Hf as [Hlf Hlen].
    change (records (f :: l)) with (record f ++ main.newline ++ records l)%string.
    rewrite !append_assoc.
    change (main.newline ++ (records l ++ tail))%string
      with (String strings.LF (records l ++ tail)).
    change (List.length (f :: l) + fuel) with (S (List.length l + fuel)).
    rewrite readLines_S.
    destruct (ReadLine_whole final defaultBufSize (record f) (records l ++ tail) Hlf Hlen)
      as (line' & -> & Hline).
    cbv beta iota zeta.
    assert (Hsp : contains " "%char line' = true).
    { assert (Hrec : contains " "%char (record f) = true).
      { unfold record. rewrite contains_append.
        change (contains " "%char (" " ++ path f)) with true.
        apply orb_true_r. }
      destruct Hline as [->|Hline]; [exact Hrec|].
      rewrite Hline, contains_append in Hrec.
      now rewrite orb_false_r in Hrec. }
    apply Split_contains in Hsp.
    destruct (index_in_range (strings.Split line' " "%char) 1) as [a1 ->]; [lia|].
    destruct (index_in_range (strings.Split line' " "%char) 0) as [a0 ->]; [lia|].
    apply IH. exact Hl.
Qed.

End ParseFacts.

Section ParseClaims.

Import journal bufio.

(** C1 (the round trip the specification asks for does not hold): whatever
    the store, parsing the bytes that [Write] produced for it ends and hands
    no store back; the loop of [ChecklistFromReader] has no exit that
    returns one. *)
Theorem Write_then_ChecklistFromReader_no_store (c : Checklist) :
  ended (ChecklistFromReader (io.NewBufferString (Serialize c))) = true
  /\ parsedStore (ChecklistFromReader (io.NewBufferString (Serialize c))) = None.
Proof.
  split.
  - pose proof (ChecklistFromReader_ends (io.NewBufferString (Serialize c))) as H.
    destruct (ChecklistFromReader _); try reflexivity.
    exfalso. apply H; [discriminate | reflexivity].
  - unfold ChecklistFromReader. apply readLines_no_store.
Qed.

(** The bytes of a store of one entry are parsed to the error [EOF]. *)
Lemma Write_then_ChecklistFromReader_EOF :
  ChecklistFromReader
    (io.NewBufferString (Serialize (mkChecklist [mkFile "/j/a" "0cc1"])))
  = Returns (None, Some EOF).
Proof. vm_compute. reflexivity. Qed.

(** [Write] puts no delimiter between two entries, so that the bytes of a
    store of two entries are one line. *)
Lemma Serialize_no_delimiter :
  Serialize (mkChecklist [mkFile "/j/a" "0cc1"; mkFile "/j/b" "92eb"])
  = "0cc1 /j/a92eb /j/b".
Proof. reflexivity. Qed.

(** C6 (the end of the stream is reported as the failure): on a stream of
    well-formed records, one per line, [ChecklistFromReader] returns no store
    and the error [EOF]. *)
Theorem ChecklistFromReader_returns_EOF (l : list file) :
  Forall (fun f => wholeLine (record f) = true) l ->
  ChecklistFromReader (io.NewBufferString (records l)) = Returns (None, Some EOF).
Proof.
  intros Hall. unfold ChecklistFromReader, io.NewBufferString.
  rewrite NewReader_eq. simpl io.data.
  pose proof (records_length l) as Hlen.
  replace (S (String.length (records l)))
    with (List.length l + S (String.length (records l) - List.length l)) by lia.
  replace (records l) with (records l ++ "")%string at 2
    by (clear; induction (records l) as [|x s IH];
        [reflexivity | now rewrite append_cons, IH]).
  destruct (readLines_records EOF l (S (String.length (records l) - List.length l)) ""
              (mkChecklist []) Hall) as [c' ->].
  rewrite readLines_S, (ReadLine_EOF _ defaultBufSize_pos). reflexivity.
Qed.

Lemma ChecklistFromReader_returns_EOF_witness :
  ChecklistFromReader
    (io.NewBufferString (records [mkFile "/j/a" "0cc1"; mkFile "/j/b" "92eb"]))
  = Returns (None, Some EOF).
Proof.
  apply ChecklistFromReader_returns_EOF.
  repeat constructor.
Defined.

(** C7 (a malformed line makes the parser panic): on a stream whose first
    line that is not a record holds no space, [ChecklistFromReader] panics
    with an index out of range instead of returning an error. *)
Theorem ChecklistFromReader_panics_without_space (l : list file) (bad rest : string) :
  Forall (fun f => wholeLine (record f) = true) l ->
  wholeLine bad = true ->
  contains " "%char bad = false ->
  ChecklistFromReader (io.NewBufferString (records l ++ bad ++ main.newline ++ rest))
  = Panics (IndexOutOfRange 1 1).
Proof.
  intros Hall Hbad Hsp. unfold ChecklistFromReader, io.NewBufferString.
  rewrite NewReader_eq. simpl io.data.
  pose proof (records_length l) as Hlen.
  rewrite string_length_append.
  set (tail := (bad ++ main.newline ++ rest)%string).
  replace (S (String.length (records l) + String.length tail))
    with (List.length l + S (String.length (records l) + String.length tail - List.length l))
    by lia.
  destruct (readLines_records EOF l
              (S (String.length (records l) + String.length tail - List.length l)) tail
              (mkChecklist []) Hall) as [c' ->].
  apply wholeLine_spec in Hbad as [Hlf Hfit].
  rewrite readLines_S. unfold tail.
  change (main.newline ++ rest)%string with (String strings.LF rest).
  destruct (ReadLine_whole EOF defaultBufSize bad rest Hlf Hfit) as (line' & -> & Hline).
  cbv beta iota zeta.
  assert (Hsp' : contains " "%char line' = false).
  { destruct Hline as [->|Hline]; [exact Hsp|].
    rewrite Hline, contains_append in Hsp.
    now apply orb_false_iff in Hsp as [? _]. }
  rewrite (Split_no_separator _ _ Hsp'). reflexivity.
Qed.

Lemma ChecklistFromReader_panics_without_space_witness :
  ChecklistFromReader
    (io.NewBufferString (records [mkFile "/j/a" "0cc1"] ++ "92eb" ++ main.newline ++ ""))
  = Panics (IndexOutOfRange 1 1).
Proof.
  apply ChecklistFromReader_panics_without_space;
    [repeat constructor | reflexivity | reflexivity].
Defined.

End ParseClaims.

(** ** Diff *)

Section DiffFacts.

Import journal.

Variable md5sum : string -> string.

Lemma ReadFile_canRead (fs : gmap string disk.node) (p : string) :
  if canRead fs p
  then exists content, fs !! p = Some (disk.File content true)
                       /\ os.ReadFile fs p = (content, None)
  else os.ReadFile fs p = ("", Some (readFailure fs p)).
Proof.
  unfold canRead, os.ReadFile, readFailure.
  destruct (fs !! p) as [[content [|]|]|]; eauto.
Qed.

(** The loop of [Diff]: it appends the paths whose fingerprint differs, up
    to the first file it cannot read, and never touches the receiver. *)
Lemma diffRange_spec (fs : gmap string disk.node) (l : list file) :
  forall out c,
    diffRange md5sum fs l out c =
    (match List.find (fun f => negb (canRead fs (path f))) l with
     | None => ((out ++ map path (List.filter (fingerprintDiffers md5sum fs) l))%list, None)
     | Some f => ([], Some (readFailure fs (path f)))
     end, c).
Proof.
  induction l as [|f l IH]; intros out c; simpl.
  - now rewrite app_nil_r.
  - pose proof (ReadFile_canRead fs (path f)) as Hread.
    unfold fingerprintDiffers at 1.
    destruct (canRead fs (path f)); simpl.
    + destruct Hread as (content & -> & ->).
      destruct (negb (String.eqb (md5sum content) (hash f))).
      * rewrite IH. destruct (List.find _ l); [reflexivity|].
        simpl. now rewrite <- app_assoc.
      * apply IH.
    + rewrite Hread. reflexivity.
Qed.

(** C3: [Diff] returns exactly the stored paths whose recomputed fingerprint
    differs from the stored one, in stored order, when every stored file can
    be read; when a stored file is missing or unreadable it reports no path
    and fails with the error of reading the first such file. *)
Theorem Diff_changed_paths_or_error (fs : gmap string disk.node) (c : Checklist) :
  fst (Diff md5sum fs c) =
  match firstUnreadable fs c with
  | None => (changedPaths md5sum fs c, None)
  | Some f => ([], Some (readFailure fs (path f)))
  end.
Proof. unfold Diff. rewrite diffRange_spec. reflexivity. Qed.

(** A path is reported exactly when one of its entries stores a fingerprint
    other than that of the bytes now at the path. *)
Lemma Diff_reports_exactly (fs : gmap string disk.node) (c : Checklist) (p : string) :
  firstUnreadable fs c = None ->
  In p (fst (fst (Diff md5sum fs c))) <->
  exists f content,
    In f (files c) /\ path f = p /\ fs !! p = Some (disk.File content true)
    /\ md5sum content <> hash f.
Proof.
  intros Hall. unfold Diff. rewrite diffRange_spec.
  unfold firstUnreadable in Hall. rewrite Hall. simpl.
  rewrite in_map_iff. split.
  - intros (f & <- & Hin). apply filter_In in Hin as [Hin Hch].
    unfold fingerprintDiffers in Hch.
    destruct (fs !! path f) as [[content [|]|]|] eqn:E; try discriminate.
    exists f, content. repeat split; auto.
    apply negb_true_iff, String.eqb_neq in Hch. exact Hch.
  - intros (f & content & Hin & <- & Hfs & Hne).
    exists f. split; [reflexivity|]. apply filter_In. split; [exact Hin|].
    unfold fingerprintDiffers. rewrite Hfs.
    apply negb_true_iff, String.eqb_neq. exact Hne.
Qed.

(** X6: when every stored file can be read and a path is stored once,
    [Diff] leaves out the file whose bytes are those of the snapshot and
    reports the file whose bytes now have another fingerprint. *)
Lemma Diff_identical_or_changed (fs : gmap string disk.node) (c : Checklist)
    (f : file) (old content : string) :
  firstUnreadable fs c = None ->
  In f (files c) ->
  (forall g, In g (files c) -> path g = path f -> g = f) ->
  hash f = md5sum old ->
  fs !! path f = Some (disk.File content true) ->
  (content = old -> ~ In (path f) (fst (fst (Diff md5sum fs c))))
  /\ (md5sum content <> md5sum old -> In (path f) (fst (fst (Diff md5sum fs c)))).
Proof.
  intros Hall Hin Huniq Hhash Hfs. split.
  - intros -> Hrep. apply (Diff_reports_exactly fs c (path f) Hall) in Hrep.
    destruct Hrep as (g & content & Hg & Hpath & Hfs' & Hne).
    rewrite (Huniq g Hg Hpath) in Hne. rewrite Hfs in Hfs'.
    injection Hfs' as <-. now apply Hne.
  - intros Hne. apply (Diff_reports_exactly fs c (path f) Hall).
    exists f, content. repeat split; auto. now rewrite Hhash.
Qed.

(** C10: [Diff] leaves the store as it was, whether it succeeds or fails, so
    that a later [Write] sends the same bytes. *)
Theorem Diff_leaves_store (fs : gmap string disk.node) (c : Checklist) :
  snd (Diff md5sum fs c) = c
  /\ forall (W : Type) (writer : io.Writer W) (w : W) (fs' : gmap string disk.node),
       fst (Write w fs' (snd (Diff md5sum fs c))) = fst (Write w fs' c).
Proof.
  assert (H : snd (Diff md5sum fs c) = c)
    by (unfold Diff; now rewrite diffRange_spec).
  split; [exact H | intros W writer w fs'; now rewrite H].
Qed.

End DiffFacts.

(** ** The directory scan *)

Section ScanFacts.

Import journal os.

Variable md5sum : string -> string.

(** The paths a completed scan has fingerprinted are the visited paths the
    filter accepts, in the order of the walk. *)
Lemma collectVisit_paths (fs : gmap string disk.node)
    (filter : string -> option FileInfo -> bool) (vs : list visit) :
  forall c c',
    walkVisits (collectVisit md5sum fs filter) vs c = Returns (None, c') ->
    map path (files c')
    = (map path (files c)
       ++ map vpath (List.filter (fun v => filter (vpath v) (vinfo v)) vs))%list.
Proof.
  induction vs as [|v vs IH]; intros c c' H; simpl in H.
  - injection H as <-. now rewrite app_nil_r.
  - unfold collectVisit at 1 in H. simpl.
    destruct (verr v); [discriminate|].
    destruct (filter (vpath v) (vinfo v)); simpl in H.
    + unfold Collect in H.
      destruct (ReadFile fs (vpath v)) as [content [err|]]; [discriminate|].
      simpl in H. apply IH in H. rewrite H. simpl.
      rewrite map_app, <- app_assoc. reflexivity.
    + now apply IH.
Qed.

Lemma ChecklistFromDir_paths (fs : gmap string disk.node) (dir : string)
    (filter : string -> option FileInfo -> bool) (c : Checklist) :
  ChecklistFromDir md5sum fs dir filter = Returns (Some c, None) ->
  map path (files c)
  = map vpath (List.filter (fun v => filter (vpath v) (vinfo v)) (walkOrder fs dir)).
Proof.
  unfold ChecklistFromDir, Walk. intros H.
  destruct (walkVisits _ _ _) as [[[err|] c']| | |] eqn:E; try discriminate.
  injection H as ->. now apply collectVisit_paths in E.
Qed.

(** C8 (the filter named for the files that are not hidden accepts the
    hidden ones): the scan that ends [Unlock] fingerprints a visited path
    exactly when its base name starts with the hidden-file marker. *)
Theorem scan_fingerprints_the_hidden_files
    (fs : gmap string disk.node) (dir : string) (c : Checklist) :
  ChecklistFromDir md5sum fs dir main.nonHiddenFilesFilter = Returns (Some c, None) ->
  forall p,
    In p (map path (files c)) <->
    In p (map vpath (walkOrder fs dir))
    /\ strings.HasPrefix (filepath.Base p) "." = true.
Proof.
  intros H p. rewrite (ChecklistFromDir_paths _ _ _ _ H).
  rewrite !in_map_iff. split.
  - intros (v & <- & Hin). apply filter_In in Hin as [Hin Hsel].
    split; [now exists v | exact Hsel].
  - intros [(v & <- & Hin) Hsel].
    exists v. split; [reflexivity|]. apply filter_In. now split.
Qed.

End ScanFacts.

Lemma scan_fingerprints_the_hidden_files_witness :
  In "/j/.a.gpg" (map journal.path (journal.files sampleScan)) <->
  In "/j/.a.gpg" (map os.vpath (os.walkOrder sampleTree "/j"))
  /\ strings.HasPrefix (filepath.Base "/j/.a.gpg") "." = true.
Proof.
  apply (scan_fingerprints_the_hidden_files sampleDigest sampleTree "/j" sampleScan).
  vm_compute. reflexivity.
Defined.

(** ** Opening a journal *)

Section OpenFacts.

Import os main.

(** The walk of [NewJournalFromArgs] returns no error and keeps the
    recipient; a visit that failed ends the process with status 1. *)
Lemma walkFile_outcome (vs : list visit) :
  forall j,
    match walkVisits walkFile vs j with
    | Returns (None, j') => gpgReceiver j' = gpgReceiver j /\ RootDir j' = RootDir j
    | Exits code => code = 1%Z
    | _ => False
    end.
Proof.
  induction vs as [|v vs IH]; intros j; simpl; [now split|].
  unfold walkFile at 1. destruct (verr v); [reflexivity|].
  destruct (negb _); [apply IH|].
  match goal with |- context [walkVisits walkFile vs ?j'] => specialize (IH j') end.
  destruct (walkVisits _ _ _) as [[[e|] j'']| | |]; auto.
Qed.

(** When the recipient file is absent the process prints the guidance and
    ends with status 0. *)
Lemma NewJournalFromArgs_not_initialised (w : World) (dir : string) :
  cwd w = Some dir ->
  fs w !! filepath.Join [dir; ".gpgid"] = None ->
  NewJournalFromArgs [] w
  = (Exits 0, Println "Journal directory is not initialised. Run journal init." w).
Proof.
  intros Hcwd Hfs. unfold NewJournalFromArgs, Getwd. rewrite Hcwd. simpl.
  unfold ReadFile. rewrite Hfs. reflexivity.
Qed.

Lemma NewJournalFromArgs_not_initialised_witness :
  NewJournalFromArgs [] (mkWorld sampleTree (Some "/j") [] [])
  = (Exits 0,
     Println "Journal directory is not initialised. Run journal init."
             (mkWorld sampleTree (Some "/j") [] [])).
Proof. apply (NewJournalFromArgs_not_initialised _ "/j"); reflexivity. Defined.

(** C9 (a failure to read the recipient file is dropped): when reading
    [.gpgid] fails for another reason than its absence, [NewJournalFromArgs]
    prints nothing and reports no error; it goes on as for an initialised
    journal whose recipient is the empty string. *)
Theorem NewJournalFromArgs_drops_read_failure (w : World) (dir : string) (err : error) :
  cwd w = Some dir ->
  ReadFile (fs w) (filepath.Join [dir; ".gpgid"]) = ("", Some err) ->
  IsNotExist err = false ->
  snd (NewJournalFromArgs [] w) = w
  /\ match fst (NewJournalFromArgs [] w) with
     | Returns (Some j, None) => gpgReceiver j = ""
     | Exits code => code = 1%Z
     | _ => False
     end.
Proof.
  intros Hcwd Hread Hne. unfold NewJournalFromArgs, Getwd. rewrite Hcwd.
  cbv beta iota zeta. unfold setRootDir at 1 2. simpl RootDir.
  rewrite Hread, Hne. unfold Walk.
  match goal with |- context [walkVisits walkFile ?vs ?j] =>
    pose proof (walkFile_outcome vs j) as Hwalk;
    destruct (walkVisits walkFile vs j) as [[[e|] j']| | |]
  end; try contradiction; simpl; split; try reflexivity.
  - now destruct Hwalk as [-> _].
  - exact Hwalk.
Qed.

End OpenFacts.

Lemma NewJournalFromArgs_drops_read_failure_witness :
  snd (main.NewJournalFromArgs [] sampleDenied) = sampleDenied
  /\ match fst (main.NewJournalFromArgs [] sampleDenied) with
     | Returns (Some j, None) => main.gpgReceiver j = ""
     | Exits code => code = 1%Z
     | _ => False
     end.
Proof.
  apply (NewJournalFromArgs_drops_read_failure
           sampleDenied "/j" (PathError "open" "/j/.gpgid" EACCES));
    reflexivity.
Defined.

(** On that world the call returns a journal and no error. *)
Lemma NewJournalFromArgs_unreadable_gpgid :
  fst (main.NewJournalFromArgs [] sampleDenied)
  = Returns (Some (main.mkJournal "/j" [main.mkFilePair "/j/.a.gpg" "/j/.a" true]
                                  ".gpg" "gpg" ""),
             None).
Proof. vm_compute. reflexivity. Qed.

(** ** Lock *)

Section LockFacts.

Import os main.

Variable gpgEncrypt : string -> string -> option string.

Lemma hasChanged_In (changes : list string) (p : string) :
  hasChanged changes p = true <-> In p changes.
Proof.
  induction changes as [|x changes IH]; simpl; [now split|].
  destruct (String.eqb_spec p x) as [->|Hne].
  - split; auto.
  - rewrite IH. split; [auto | intros [Heq|H]; [congruence | exact H]].
Qed.

(** [Reset] on a hidden pair gives the encrypted artifact its visible name
    back, bytes untouched, by one [mv]. *)
Lemma Reset_hidden (f : FilePair) (w : World) (c : string) (r : bool) :
  fs w !! footprint f = Some (File c r) ->
  fs w !! enc f = None ->
  Reset f w
  = (None, mkWorld (<[enc f := File c r]> (delete (footprint f) (fs w)))
                   (cwd w) (stdout w)
                   (execs w ++ [("mv", [footprint f; enc f])])).
Proof.
  intros Hfoot Henc. unfold Reset, Run, logExec, setFS, mvFS. simpl.
  rewrite Henc, Hfoot.
  destruct (String.eqb_spec (footprint f) (enc f)) as [Heq|_];
    [rewrite Heq, Henc in Hfoot; discriminate | now rewrite ?Henc].
Qed.

(** [Reset] runs [mv] and nothing else, whatever the state of the pair. *)
Lemma Reset_execs (f : FilePair) (w : World) :
  execs (snd (Reset f w)) = (execs w ++ [("mv", [footprint f; enc f])])%list.
Proof.
  unfold Reset, Run, logExec, setFS. simpl.
  destruct (mvFS _ _ _); reflexivity.
Qed.

(** A successful [Encrypt] read the plaintext and wrote its encryption over
    the encrypted artifact. *)
Lemma Encrypt_success (f : FilePair) (j : Journal) (w w1 : World) :
  Encrypt gpgEncrypt f j w = (None, w1) ->
  exists pt ct,
    fs w !! plain f = Some (File pt true)
    /\ gpgEncrypt (recipientArg j) pt = Some ct
    /\ fs w1 = <[enc f := File ct true]> (fs w)
    /\ execs w1 = app (execs w) [(gpgCommand j,
                                 ["-e"; "--batch"; "--yes"; "-o" ++ enc f;
                                  "-r" ++ recipientArg j; plain f])].
Proof.
  unfold Encrypt, Run, logExec, setFS, gpgFS, ReadFile, Printf, recipientArg. simpl.
  destruct (fs w !! plain f) as [[pt [|]|]|]; try discriminate.
  destruct (gpgEncrypt _ pt) as [ct|] eqn:Hct; [|discriminate].
  destruct (fs w !! enc f) as [[? ?|]|]; try discriminate;
    intros H; injection H as <-; exists pt, ct; repeat split; auto.
Qed.

(** [Encrypt] succeeds when the plaintext can be read, [gpg] encrypts it and
    the encrypted artifact is not a directory. *)
Lemma Encrypt_runs (f : FilePair) (j : Journal) (w : World) (pt ct : string) :
  fs w !! plain f = Some (File pt true) ->
  gpgEncrypt (recipientArg j) pt = Some ct ->
  fs w !! enc f <> Some Directory ->
  exists w1, Encrypt gpgEncrypt f j w = (None, w1).
Proof.
  intros Hpt Hct Hdir.
  unfold Encrypt, Run, logExec, setFS, gpgFS, ReadFile, Printf. simpl.
  rewrite Hpt. unfold recipientArg in Hct. rewrite Hct.
  destruct (fs w !! enc f) as [[? ?|]|]; try congruence; eauto.
Qed.

(** A successful [RemoveFootprint] removed the hidden marker, by one [rm]. *)
Lemma RemoveFootprint_success (f : FilePair) (w w' : World) :
  RemoveFootprint f w = (None, w') ->
  fs w' = delete (footprint f) (fs w)
  /\ execs w' = (execs w ++ [("rm", [footprint f])])%list.
Proof.
  unfold RemoveFootprint, Run, logExec, setFS, rmFS. simpl.
  destruct (fs w !! footprint f) as [[? ?|]|]; try discriminate.
  intros H. injection H as <-. auto.
Qed.

Lemma RemoveFootprint_runs (f : FilePair) (w : World) (c : string) (r : bool) :
  fs w !! footprint f = Some (File c r) ->
  exists w', RemoveFootprint f w = (None, w').
Proof.
  intros H. unfold RemoveFootprint, Run, logExec, setFS, rmFS. simpl.
  rewrite H. eauto.
Qed.

(** One turn of the loop of [Lock], with the plaintext path of the pair
    handed to [hasChanged] (the source hands it the pair itself): for a
    pair whose plaintext path is not in the changed set the turn runs one
    [mv] that gives a hidden encrypted artifact its visible name back with
    its bytes, and does not run [gpg]; for a pair whose plaintext path is in
    the changed set the turn encrypts the plaintext into the encrypted
    artifact and then removes the hidden marker.  [Lock] itself never gets
    as far as this loop, see [Lock_never_completes]. *)
Theorem Lock_resets_or_encrypts (j : Journal) (changes : list string)
    (file : FilePair) (rest : list FilePair) (w : World) :
  (~ In (plain file) changes ->
   exists w',
     lockRange gpgEncrypt j changes (file :: rest) w
     = lockRange gpgEncrypt j changes rest w'
     /\ execs w' = (execs w ++ [("mv", [footprint file; enc file])])%list
     /\ forall c r,
          fs w !! footprint file = Some (File c r) ->
          fs w !! enc file = None ->
          fs w' = <[enc file := File c r]> (delete (footprint file) (fs w)))
  /\ (In (plain file) changes ->
      forall pt ct c r,
        fs w !! plain file = Some (File pt true) ->
        gpgEncrypt (recipientArg j) pt = Some ct ->
        fs w !! enc file <> Some Directory ->
        fs w !! footprint file = Some (File c r) ->
        footprint file <> enc file ->
        exists w',
          lockRange gpgEncrypt j changes (file :: rest) w
          = lockRange gpgEncrypt j changes rest w'
          /\ execs w' = app (execs w) [(gpgCommand j,
                                       ["-e"; "--batch"; "--yes"; "-o" ++ enc file;
                                        "-r" ++ recipientArg j; plain file]);
                                      ("rm", [footprint file])]
          /\ fs w' = delete (footprint file) (<[enc file := File ct true]> (fs w))).
Proof.
  split.
  - intros Hnot. exists (snd (Reset file w)).
    assert (Hch : hasChanged changes (plain file) = false).
    { destruct (hasChanged changes (plain file)) eqn:E; [|reflexivity].
      apply hasChanged_In in E. contradiction. }
    split; [|split].
    + simpl. rewrite Hch. simpl. now destruct (Reset file w).
    + apply Reset_execs.
    + intros c r Hfoot Henc. now rewrite (Reset_hidden _ _ _ _ Hfoot Henc).
  - intros Hin pt ct c r Hpt Hct Hdir Hfoot Hne.
    apply hasChanged_In in Hin.
    destruct (Encrypt_runs file j w pt ct Hpt Hct Hdir) as [w1 Henc].
    destruct (Encrypt_success _ _ _ _ Henc) as (pt' & ct' & Hpt' & Hct' & Hfs1 & Hex1).
    assert (pt' = pt) by congruence. subst pt'.
    assert (ct' = ct) by congruence. subst ct'.
    assert (Hfoot1 : fs w1 !! footprint file = Some (File c r))
      by (rewrite Hfs1, lookup_insert_ne; auto).
    destruct (RemoveFootprint_runs file w1 c r Hfoot1) as [w2 Hrm].
    destruct (RemoveFootprint_success _ _ _ Hrm) as [Hfs2 Hex2].
    exists w2. split; [|split].
    + simpl. rewrite Hin. simpl. now rewrite Henc, Hrm.
    + rewrite Hex2, Hex1, <- app_assoc. reflexivity.
    + now rewrite Hfs2, Hfs1.
Qed.


(** *** The state after the loop *)

Lemma separatePairs_cons (f : FilePair) (rest : list FilePair) :
  separatePairs (f :: rest) ->
  separatePairs rest
  /\ enc f <> footprint f
  /\ ~ In (enc f) (flat_map artifactPaths rest)
  /\ ~ In (footprint f) (flat_map artifactPaths rest)
  /\ (forall g, In g (f :: rest) -> plain g <> enc f /\ plain g <> footprint f).
Proof.
  intros [Hnd Hplain]. simpl in Hnd.
  apply List.NoDup_cons_iff in Hnd as [Henc Hnd].
  apply List.NoDup_cons_iff in Hnd as [Hfoot Hnd].
  repeat split.
  - exact Hnd.
  - intros g Hg Hin. apply (Hplain g (or_intror Hg)). simpl. auto.
  - intros Heq. apply Henc. left. now symmetry.
  - intros Hin. apply Henc. now right.
  - exact Hfoot.
  - intros Heq. apply (Hplain g H). simpl. auto.
  - intros Heq. apply (Hplain g H). simpl. auto.
Qed.

Lemma artifactPaths_in (f : FilePair) (files : list FilePair) :
  In f files ->
  In (enc f) (flat_map artifactPaths files)
  /\ In (footprint f) (flat_map artifactPaths files).
Proof.
  intros Hin. split; apply in_flat_map; exists f; simpl; auto.
Qed.

(** What one turn of the loop does to the file system of a hidden pair. *)
Lemma lockRange_turn (j : Journal) (changes : list string) (f : FilePair)
    (rest : list FilePair) (w w' : World) :
  hiddenPair (fs w) f ->
  enc f <> footprint f ->
  lockRange gpgEncrypt j changes (f :: rest) w = (None, w') ->
  exists w1,
    lockRange gpgEncrypt j changes rest w1 = (None, w')
    /\ (forall p, p <> enc f -> p <> footprint f -> fs w1 !! p = fs w !! p)
    /\ fs w1 !! footprint f = None
    /\ (if hasChanged changes (plain f)
        then exists pt ct,
               fs w !! plain f = Some (File pt true)
               /\ gpgEncrypt (recipientArg j) pt = Some ct
               /\ fs w1 !! enc f = Some (File ct true)
        else fs w1 !! enc f = fs w !! footprint f).
Proof.
  intros [Henc (c & r & Hfoot)] Hne H. simpl in H.
  destruct (hasChanged changes (plain f)); simpl in H.
  - destruct (Encrypt gpgEncrypt f j w) as [[err|] w1] eqn:E1; [discriminate|].
    destruct (RemoveFootprint f w1) as [[err|] w2] eqn:E2; [discriminate|].
    apply Encrypt_success in E1 as (pt & ct & Hpt & Hct & Hfs1 & _).
    apply RemoveFootprint_success in E2 as [Hfs2 _].
    exists w2. rewrite Hfs2, Hfs1. repeat split.
    + exact H.
    + intros p Hp1 Hp2. rewrite lookup_delete_ne, lookup_insert_ne; auto.
    + apply lookup_delete_eq.
    + exists pt, ct. repeat split; auto.
      rewrite lookup_delete_ne, lookup_insert_eq; auto.
  - rewrite (Reset_hidden _ _ _ _ Hfoot Henc) in H.
    match type of H with lockRange _ _ _ _ ?w1 = _ => exists w1 end.
    repeat split.
    + exact H.
    + intros p Hp1 Hp2. simpl. rewrite lookup_insert_ne, lookup_delete_ne; auto.
    + simpl. rewrite lookup_insert_ne, lookup_delete_eq; auto.
    + simpl. rewrite lookup_insert_eq. now symmetry.
Qed.

Lemma lockRange_state (j : Journal) (changes : list string) (files : list FilePair) :
  forall w w',
    separatePairs files ->
    (forall f, In f files -> hiddenPair (fs w) f) ->
    lockRange gpgEncrypt j changes files w = (None, w') ->
    (forall p, ~ In p (flat_map artifactPaths files) -> fs w' !! p = fs w !! p)
    /\ (forall f, In f files ->
          fs w' !! footprint f = None
          /\ (if hasChanged changes (plain f)
              then exists pt ct,
                     fs w !! plain f = Some (File pt true)
                     /\ gpgEncrypt (recipientArg j) pt = Some ct
                     /\ fs w' !! enc f = Some (File ct true)
              else fs w' !! enc f = fs w !! footprint f)).
Proof.
  induction files as [|f rest IH]; intros w w' Hsep Hhid H.
  - simpl in H. injection H as <-. split; [reflexivity | intros f []].
  - destruct (separatePairs_cons _ _ Hsep) as (Hsep' & Hne & Hencf & Hfootf & Hplain).
    destruct (lockRange_turn j changes f rest w w' (Hhid f (or_introl eq_refl)) Hne H)
      as (w1 & Hrest & Hframe & Hfoot1 & Henc1).
    assert (Hhid1 : forall g, In g rest -> hiddenPair (fs w1) g).
    { intros g Hg. destruct (artifactPaths_in g rest Hg) as [Hge Hgf].
      destruct (Hhid g (or_intror Hg)) as [He (c & r & Hf)].
      split; [|exists c, r]; rewrite Hframe; auto; congruence. }
    destruct (IH w1 w' Hsep' Hhid1 Hrest) as [IHframe IHpairs].
    split.
    + intros p Hp. simpl in Hp.
      rewrite IHframe by (intros Hin; apply Hp; auto).
      apply Hframe; intros ->; apply Hp; auto.
    + intros g [<-|Hg].
      * rewrite !IHframe by assumption. split; [exact Hfoot1 | exact Henc1].
      * destruct (artifactPaths_in g rest Hg) as [Hge Hgf].
        destruct (IHpairs g Hg) as [Hgfoot Hgenc]. split; [exact Hgfoot|].
        destruct (Hplain g (or_intror Hg)) as [Hp1 Hp2].
        destruct (hasChanged changes (plain g)).
        -- destruct Hgenc as (pt & ct & Hpt & Hct & Hge'). exists pt, ct.
           rewrite <- (Hframe (plain g) Hp1 Hp2). auto.
        -- rewrite Hgenc. apply Hframe; congruence.
Qed.

(** The loop of [Lock] taken by itself: when it completes without error
    from a state where every pair is hidden, every pair has its one visible
    artifact (the bytes that were hidden when its plaintext path is not in
    the changed set, the encryption of its plaintext when it is), the hidden
    marker of no pair remains, and every plaintext is left as it was. *)
Theorem Lock_restores_artifacts_keeps_plaintext (j : Journal) (changes : list string)
    (files : list FilePair) (w w' : World) :
  separatePairs files ->
  (forall f, In f files -> hiddenPair (fs w) f) ->
  lockRange gpgEncrypt j changes files w = (None, w') ->
  forall f, In f files ->
    fs w' !! footprint f = None
    /\ (In (plain f) changes ->
        exists pt ct,
          fs w !! plain f = Some (File pt true)
          /\ gpgEncrypt (recipientArg j) pt = Some ct
          /\ fs w' !! enc f = Some (File ct true))
    /\ (~ In (plain f) changes ->
        exists c r, fs w !! footprint f = Some (File c r)
                    /\ fs w' !! enc f = Some (File c r))
    /\ fs w' !! plain f = fs w !! plain f.
Proof.
  intros Hsep Hhid H f Hf.
  destruct (lockRange_state j changes files w w' Hsep Hhid H) as [Hframe Hpairs].
  destruct (Hpairs f Hf) as [Hfoot Henc].
  repeat split.
  - exact Hfoot.
  - intros Hin. apply hasChanged_In in Hin. now rewrite Hin in Henc.
  - intros Hnot. destruct (hasChanged changes (plain f)) eqn:E.
    + apply hasChanged_In in E. contradiction.
    + destruct (Hhid f Hf) as [_ (c & r & Hc)]. exists c, r.
      split; [exact Hc | now rewrite Henc].
  - apply Hframe. destruct Hsep as [_ Hplain]. now apply Hplain.
Qed.

End LockFacts.

Section LockExamples.

Import os main.

Lemma sample_separatePairs : separatePairs (Files sampleJournal).
Proof.
  split.
  - repeat (apply List.NoDup_cons; [simpl; intuition discriminate|]).
    apply List.NoDup_nil.
  - intros f [<-|[<-|[]]]; simpl; intuition discriminate.
Qed.

Lemma sample_hiddenPairs :
  forall f, In f (Files sampleJournal) -> hiddenPair (fs sampleUnlocked) f.
Proof.
  intros f [<-|[<-|[]]]; (split; [reflexivity | eexists _, _; reflexivity]).
Qed.

Lemma Lock_resets_or_encrypts_witness :
  (exists w',
     lockRange sampleEncrypt sampleJournal ["/j/b"]
               [mkFilePair "/j/a.gpg" "/j/a" false; mkFilePair "/j/b.gpg" "/j/b" false]
               sampleUnlocked
     = lockRange sampleEncrypt sampleJournal ["/j/b"]
                 [mkFilePair "/j/b.gpg" "/j/b" false] w'
     /\ execs w' = app (execs sampleUnlocked) [("mv", ["/j/.a.gpg"; "/j/a.gpg"])])
  /\ (exists w',
        lockRange sampleEncrypt sampleJournal ["/j/b"]
                  [mkFilePair "/j/b.gpg" "/j/b" false] sampleUnlocked
        = lockRange sampleEncrypt sampleJournal ["/j/b"] [] w'
        /\ execs w' = app (execs sampleUnlocked)
                          [("gpg", ["-e"; "--batch"; "--yes"; "-o/j/b.gpg";
                                    "-r" ++ quote ++ "me" ++ quote; "/j/b"]);
                           ("rm", ["/j/.b.gpg"])]
        /\ fs w' = delete "/j/.b.gpg" (<["/j/b.gpg" := File "gpg:B2" true]> (fs sampleUnlocked))).
Proof.
  split.
  - destruct (proj1 (Lock_resets_or_encrypts sampleEncrypt sampleJournal ["/j/b"]
                       (mkFilePair "/j/a.gpg" "/j/a" false)
                       [mkFilePair "/j/b.gpg" "/j/b" false] sampleUnlocked))
      as (w' & Hrun & Hexecs & _).
    + simpl. intuition discriminate.
    + exists w'. split; [exact Hrun | exact Hexecs].
  - apply (proj2 (Lock_resets_or_encrypts sampleEncrypt sampleJournal ["/j/b"]
                    (mkFilePair "/j/b.gpg" "/j/b" false) [] sampleUnlocked)
                 (or_introl eq_refl) "B2" "gpg:B2" "gpg:B" true);
      try reflexivity; discriminate.
Defined.

(** The loop of [Lock] removes no plaintext: it completes over the two
    pairs of the scenario and the plaintexts are still there. *)
Lemma Lock_leaves_plaintext :
  fst (lockRange sampleEncrypt sampleJournal ["/j/b"] (Files sampleJournal) sampleUnlocked)
  = None
  /\ ~ lockedAsSpecified (fs sampleLocked) (Files sampleJournal).
Proof.
  split; [vm_compute; reflexivity|].
  intros H. destruct (H (mkFilePair "/j/a.gpg" "/j/a" false)) as (_ & _ & Hplain).
  - simpl. auto.
  - vm_compute in Hplain. discriminate.
Qed.

Lemma Lock_restores_artifacts_keeps_plaintext_witness :
  let f := mkFilePair "/j/b.gpg" "/j/b" false in
  fs sampleLocked !! footprint f = None
  /\ (In (plain f) ["/j/b"] ->
      exists pt ct,
        fs sampleUnlocked !! plain f = Some (File pt true)
        /\ sampleEncrypt (recipientArg sampleJournal) pt = Some ct
        /\ fs sampleLocked !! enc f = Some (File ct true))
  /\ (~ In (plain f) ["/j/b"] ->
      exists c r, fs sampleUnlocked !! footprint f = Some (File c r)
                  /\ fs sampleLocked !! enc f = Some (File c r))
  /\ fs sampleLocked !! plain f = fs sampleUnlocked !! plain f.
Proof.
  apply (Lock_restores_artifacts_keeps_plaintext sampleEncrypt sampleJournal ["/j/b"]
           (Files sampleJournal) sampleUnlocked sampleLocked
           sample_separatePairs sample_hiddenPairs).
  - vm_compute. reflexivity.
  - simpl. auto.
Defined.

End LockExamples.

(** ** Unlock *)

Section UnlockFacts.

Import os.

Variable md5sum : string -> string.
Variable gpgDecrypt : string -> string -> option string.

(** *** What is written stays *)

Lemma gpgFS_keeps (capability : string -> string -> option string)
    (recipient input output p : string) (fs fs' : gmap string node) :
  main.gpgFS capability recipient input output fs = Some fs' ->
  is_Some (fs !! p) -> is_Some (fs' !! p).
Proof.
  unfold main.gpgFS. destruct (ReadFile fs input) as [bytes [err|]]; [discriminate|].
  destruct (capability recipient bytes) as [result|]; [|discriminate].
  intros H Hp.
  assert (Hins : is_Some (<[output := File result true]> fs !! p)).
  { destruct (decide (output = p)) as [->|Hne];
      [rewrite lookup_insert_eq; eauto | now rewrite lookup_insert_ne]. }
  destruct (fs !! output) as [[? ?|]|]; try discriminate; now injection H as <-.
Qed.

Lemma pipeline_Decrypt_keeps (fp : pipeline.FilePair) (j : pipeline.Journal)
    (w : World) (p : string) :
  is_Some (fs w !! p) ->
  is_Some (fs (snd (pipeline.Decrypt gpgDecrypt fp j w)) !! p).
Proof.
  intros Hp. unfold pipeline.Decrypt, Run, logExec, setFS. simpl.
  destruct (main.gpgFS _ _ _ _ _) as [fs'|] eqn:E; simpl; [|exact Hp].
  exact (gpgFS_keeps _ _ _ _ _ _ _ E Hp).
Qed.

Lemma FileWrite_keeps (name bytes p : string) (fs : gmap string node) :
  is_Some (fs !! p) -> is_Some (snd (FileWrite name bytes fs) !! p).
Proof.
  intros Hp. unfold FileWrite.
  destruct (fs !! name) as [[content r|]|] eqn:E; simpl; try exact Hp.
  destruct (decide (name = p)) as [->|Hne];
    [rewrite lookup_insert_eq; eauto | now rewrite lookup_insert_ne].
Qed.

Lemma Flush_keeps (b : bufio.Writer) (p : string) (fs : gmap string node) :
  is_Some (fs !! p) -> is_Some (snd (bufio.Flush b fs) !! p).
Proof.
  intros Hp. unfold bufio.Flush.
  destruct (bufio.werr b); [exact Hp|].
  destruct (String.eqb (bufio.buf b) ""); [exact Hp|].
  pose proof (FileWrite_keeps (bufio.wr b) (bufio.buf b) p fs Hp) as H.
  destruct (FileWrite _ _ _) as [[err|] fs']; exact H.
Qed.

Lemma writeThrough_keeps (b : bufio.Writer) (bytes p : string) (fs : gmap string node) :
  is_Some (fs !! p) -> is_Some (snd (bufio.writeThrough b bytes fs) !! p).
Proof.
  intros Hp. unfold bufio.writeThrough.
  pose proof (FileWrite_keeps (bufio.wr b) bytes p fs Hp) as H.
  destruct (FileWrite _ _ _) as [[err|] fs']; exact H.
Qed.

Lemma Write_keeps (b : bufio.Writer) (bytes p : string) (fs : gmap string node) :
  is_Some (fs !! p) -> is_Some (snd (bufio.Write b bytes fs) !! p).
Proof.
  intros Hp. unfold bufio.Write.
  destruct (bufio.werr b); [exact Hp|].
  destruct (Nat.leb _ _); [exact Hp|].
  destruct (String.eqb (bufio.buf b) ""); [now apply writeThrough_keeps|].
  match goal with |- context [bufio.Flush ?b' fs] =>
    pose proof (Flush_keeps b' p fs Hp) as H;
    destruct (bufio.Flush b' fs) as [[[err|] b''] fs']
  end; [exact H|].
  destruct (Nat.leb _ _); [exact H | now apply writeThrough_keeps].
Qed.

(** *** The checksum file is created before any pair is decrypted *)

Lemma Create_makes (name : string) (fs fs' : gmap string node) (file : string) :
  Create name fs = ((file, None), fs') ->
  fs' = <[name := File "" true]> fs.
Proof.
  unfold Create.
  destruct (fs !! name) as [[content [|]|]|]; intros H; try discriminate;
    now injection H as <- <-.
Qed.

Lemma createdFirst_init (j : pipeline.Journal) (w : World) :
  createdFirst j w (pipeline.init j w).
Proof. split; simpl; [intros _; repeat split | intros H; contradiction]. Qed.

Ltac kept_after_create :=
  split; simpl in *; [discriminate | intros _; auto].

(** Every statement that runs after the creation keeps the file. *)
Ltac turn_after_create Hstep Hsome :=
  repeat
    (match type of Hstep with
     | None = Some _ => discriminate Hstep
     | Some _ = Some _ => injection Hstep as <-; kept_after_create
     | context [pipeline.Decrypt ?d ?fp ?j ?w] =>
         pose proof (pipeline_Decrypt_keeps fp j w _ Hsome);
         destruct (pipeline.Decrypt d fp j w) as [[?|] ?]
     | context [bufio.Write ?b ?s ?fs] =>
         pose proof (Write_keeps b s _ fs Hsome);
         destruct (bufio.Write b s fs) as [[? ?] ?]
     | context [bufio.Flush ?b ?fs] =>
         pose proof (Flush_keeps b _ fs Hsome);
         destruct (bufio.Flush b fs) as [[? ?] ?]
     | context [ReadFile ?fs ?p] => destruct (ReadFile fs p) as [? [?|]]
     | context [match ?x with _ => _ end] => destruct x
     end; simpl in Hstep).

Lemma createdFirst_step (j : pipeline.Journal) (w : World) (a : pipeline.actor)
    (s s' : pipeline.state) :
  createdFirst j w s ->
  pipeline.stepOf md5sum gpgDecrypt j a s = Some s' ->
  createdFirst j w s'.
Proof.
  intros [Hpre Hpost] Hstep.
  destruct s as [wd pc dch hch cch dW hW cW wg chk ex]. simpl in *.
  unfold pipeline.stepOf in Hstep. simpl in Hstep.
  destruct ex; [discriminate|].
  destruct pc.
  - (* before [os.Create]: only the main goroutine can move *)
    destruct (Hpre eq_refl) as (-> & -> & -> & -> & -> & Hex).
    destruct a; simpl in Hstep; try discriminate.
    unfold pipeline.stepMain in Hstep. simpl in Hstep.
    destruct (Create _ _) as [[file [err|]] fs'] eqn:E; injection Hstep as <-.
    + split; simpl; [intros _; repeat split; exact Hex | intros H; contradiction].
    + apply Create_makes in E. subst fs'.
      split; simpl; [discriminate | intros _].
      unfold checkPath. rewrite lookup_insert_eq. eauto.
  - assert (Hsome := Hpost ltac:(discriminate)). clear Hpre Hpost.
    unfold pipeline.stepMain, pipeline.stepDecrypt, pipeline.stepHash,
      pipeline.stepChecksum, pipeline.CalculateHash, pipeline.exit in Hstep.
    simpl in Hstep. turn_after_create Hstep Hsome.
  - assert (Hsome := Hpost ltac:(discriminate)). clear Hpre Hpost.
    unfold pipeline.stepMain, pipeline.stepDecrypt, pipeline.stepHash,
      pipeline.stepChecksum, pipeline.CalculateHash, pipeline.exit in Hstep.
    simpl in Hstep. turn_after_create Hstep Hsome.
  - assert (Hsome := Hpost ltac:(discriminate)). clear Hpre Hpost.
    unfold pipeline.stepMain, pipeline.stepDecrypt, pipeline.stepHash,
      pipeline.stepChecksum, pipeline.CalculateHash, pipeline.exit in Hstep.
    simpl in Hstep. turn_after_create Hstep Hsome.
  - assert (Hsome := Hpost ltac:(discriminate)). clear Hpre Hpost.
    unfold pipeline.stepMain, pipeline.stepDecrypt, pipeline.stepHash,
      pipeline.stepChecksum, pipeline.CalculateHash, pipeline.exit in Hstep.
    simpl in Hstep. turn_after_create Hstep Hsome.
  - assert (Hsome := Hpost ltac:(discriminate)). clear Hpre Hpost.
    unfold pipeline.stepMain, pipeline.stepDecrypt, pipeline.stepHash,
      pipeline.stepChecksum, pipeline.CalculateHash, pipeline.exit in Hstep.
    simpl in Hstep. turn_after_create Hstep Hsome.
  - discriminate.
Qed.

Lemma reachable_createdFirst (j : pipeline.Journal) (w : World) (s : pipeline.state) :
  pipeline.reachable md5sum gpgDecrypt j w s -> createdFirst j w s.
Proof.
  induction 1 as [|s s' _ IH Hstep].
  - apply createdFirst_init.
  - inversion Hstep as [a s1 s2 Hturn]; subst.
    exact (createdFirst_step j w a s s' IH Hturn).
Qed.

Lemma run_reachable (j : pipeline.Journal) (w : World) (schedule : list pipeline.actor) :
  forall s s',
    pipeline.reachable md5sum gpgDecrypt j w s ->
    pipeline.run md5sum gpgDecrypt j schedule s = Some s' ->
    pipeline.reachable md5sum gpgDecrypt j w s'.
Proof.
  induction schedule as [|a schedule IH]; intros s s' Hs Hrun; simpl in Hrun.
  - now injection Hrun as <-.
  - destruct (pipeline.stepOf md5sum gpgDecrypt j a s) as [s1|] eqn:E; [|discriminate].
    apply (IH s1 s'); [|exact Hrun].
    apply (pipeline.reachable_step _ _ _ _ s s1 Hs). now apply (pipeline.step_actor _ _ _ a).
Qed.

(** X16: in the pipeline no command runs, and so no pair is decrypted,
    before the checksum file is created: in every state the process can
    reach, if a command has run then the checksum file exists. *)
Lemma pipeline_creates_before_decrypting (j : pipeline.Journal) (w : World)
    (s : pipeline.state) :
  pipeline.reachable md5sum gpgDecrypt j w s ->
  execs (pipeline.world s) <> execs w ->
  is_Some (fs (pipeline.world s) !! checkPath (pipeline.RootDir j)).
Proof.
  intros Hreach Hexecs. destruct (reachable_createdFirst j w s Hreach) as [Hpre Hpost].
  apply Hpost. intros Hpc. apply Hexecs. now destruct (Hpre Hpc) as (_ & _ & _ & _ & _ & ->).
Qed.

(** The loop of the sequential [Unlock] stops at the first pair that fails,
    and [Unlock] returns its error at once: neither the scan nor
    [os.Create] runs. *)
Lemma Unlock_returns_before_Create (j : main.Journal) (w w' : World) (err : error) :
  main.unlockRange gpgDecrypt j (main.Files j) w = (Some err, w') ->
  main.Unlock md5sum gpgDecrypt j w = (Returns (Some err), w').
Proof. intros H. unfold main.Unlock. now rewrite H. Qed.

End UnlockFacts.

Section UnlockExamples.

Import os.

(** C4 (the pipeline creates the checksum file before it decrypts): on a
    journal whose one pair cannot be decrypted and which holds the checklist
    of an earlier run, the main goroutine creates the checksum file, adds to
    the wait group and enqueues the pair; the decrypting goroutine receives
    it, fails and ends the process with status 1, and the checklist that was
    there is then an empty file. *)
Theorem pipelined_Unlock_truncates_checklist :
  exists s,
    pipeline.run sampleDigest sampleDecrypt samplePipeline
                 [pipeline.Main; pipeline.Main; pipeline.Main;
                  pipeline.DecryptWorker; pipeline.DecryptWorker]
                 (pipeline.init samplePipeline sampleStale) = Some s
    /\ pipeline.exited s = Some 1%Z
    /\ fs sampleStale !! "/j/.check" = Some (File "<old> /j/a" true)
    /\ fs (pipeline.world s) !! "/j/.check" = Some (File "" true).
Proof.
  eexists. split; [vm_compute; reflexivity|].
  repeat split; vm_compute; reflexivity.
Qed.

(** On the same journal the sequential [Unlock] returns the error of the
    decryption and leaves the file system as it was. *)
Lemma sequential_Unlock_keeps_checklist :
  fst (main.Unlock sampleDigest sampleDecrypt sampleSequential sampleStale)
  = Returns (Some (Errorf "Error decrypting file /j/a.gpg: %s" (ExitError "gpg")))
  /\ fs (snd (main.Unlock sampleDigest sampleDecrypt sampleSequential sampleStale))
     = fs sampleStale.
Proof. split; vm_compute; reflexivity. Qed.

(** A whole sequential [Unlock]: the plaintext is written, the artifact is
    hidden, and the checklist holds the fingerprint of the hidden artifact,
    not of the plaintext. *)
Lemma sequential_Unlock_checklist :
  fst (main.Unlock sampleDigest sampleDecrypt sampleSequential sampleSealed)
  = Returns None
  /\ fs (snd (main.Unlock sampleDigest sampleDecrypt sampleSequential sampleSealed))
       !! "/j/a"
     = Some (File "A" true)
  /\ fs (snd (main.Unlock sampleDigest sampleDecrypt sampleSequential sampleSealed))
       !! "/j/.a.gpg"
     = Some (File "gpg:A" true)
  /\ fs (snd (main.Unlock sampleDigest sampleDecrypt sampleSequential sampleSealed))
       !! "/j/.check"
     = Some (File "<gpg:A> /j/.a.gpg" true).
Proof. repeat split; vm_compute; reflexivity. Qed.

Lemma pipeline_creates_before_decrypting_witness :
  is_Some (fs (main.Printf "Error decrypting file /j/a.gpg: %s"
                 (snd (pipeline.Decrypt sampleDecrypt
                         (pipeline.NewFilePair "/j/a.gpg" "/j/a") samplePipeline
                         (setFS sampleStale (<["/j/.check" := File "" true]> (fs sampleStale))))))
           !! checkPath "/j").
Proof.
  refine (pipeline_creates_before_decrypting sampleDigest sampleDecrypt
            samplePipeline sampleStale
            (pipeline.mkState _ pipeline.AtWait [] [] []
               (pipeline.Holding (pipeline.NewFilePair "/j/a.gpg" "/j/a"))
               pipeline.Receiving pipeline.Receiving 1 _ (Some 1%Z)) _ _).
  - apply (run_reachable sampleDigest sampleDecrypt samplePipeline sampleStale
             [pipeline.Main; pipeline.Main; pipeline.Main; pipeline.Main;
              pipeline.DecryptWorker; pipeline.DecryptWorker]
             (pipeline.init samplePipeline sampleStale)).
    + apply pipeline.reachable_init.
    + vm_compute. reflexivity.
  - vm_compute. discriminate.
Defined.

End UnlockExamples.

(** * Further properties of the code *)

(** ** The fingerprint store *)

Section StoreFacts.

Import journal os.

Variable md5sum : string -> string.

Lemma append_empty_r (a : string) : (a ++ "")%string = a.
Proof. induction a as [|x a IH]; [reflexivity | now rewrite append_cons, IH]. Qed.

Lemma writeRange_Buffer (l : list file) :
  forall (b : io.Buffer) (fs : gmap string node),
    writeRange l b fs = (None, (b ++ concatAll (map record l))%string, fs).
Proof.
  induction l as [|f l IH]; intros b fs; simpl.
  - now rewrite append_empty_r.
  - rewrite IH. unfold Sprintf_s_s, record. now rewrite !append_assoc.
Qed.

(** X1: on a [bytes.Buffer] [Write] never fails and appends the entries in
    stored order, each as fingerprint, space, path, with nothing between two
    entries and nothing after the last; the file system and the store are
    left as they were. *)
Theorem Write_appends_entries_in_order (c : Checklist) (b : io.Buffer)
    (fs : gmap string node) :
  Write b fs c = ((None, (b ++ concatAll (map record (files c)))%string, fs), c).
Proof. unfold Write. now rewrite writeRange_Buffer. Qed.

(** *** The scan *)

Lemma walkOrder_no_error (fs : gmap string node) (root : string) (n : node) :
  fs !! root = Some n ->
  forall v, In v (walkOrder fs root) -> verr v = None.
Proof.
  intros Hroot v Hin. unfold walkOrder in Hin. rewrite Hroot in Hin.
  destruct n as [content r|].
  - destruct Hin as [<-|[]]. reflexivity.
  - destruct Hin as [<-|Hin]; [reflexivity|].
    apply list_elem_of_In, list_elem_of_omap in Hin as (p & _ & Hv).
    destruct (fs !! p) as [m|]; simpl in Hv; [|discriminate].
    now injection Hv as <-.
Qed.

(** The run of the walk function of [ChecklistFromDir] over visits that
    carry no error: it stops at the first accepted path it cannot read, and
    otherwise records every accepted path with the fingerprint of its
    bytes. *)
Lemma collectVisit_run (fs : gmap string node)
    (filter : string -> option FileInfo -> bool) (vs : list visit) :
  (forall v, In v vs -> verr v = None) ->
  forall c,
    match List.find (stopsScan fs filter) vs with
    | Some v =>
        exists c', walkVisits (collectVisit md5sum fs filter) vs c
                   = Returns (Some (readFailure fs (vpath v)), c')
    | None =>
        walkVisits (collectVisit md5sum fs filter) vs c
        = Returns (None, mkChecklist
                           (files c ++ map (entryOf md5sum fs)
                                           (List.filter (accepted filter) vs)))
    end.
Proof.
  induction vs as [|v vs IH]; intros Hverr c; simpl.
  - now rewrite app_nil_r; destruct c.
  - unfold collectVisit at 1 3. rewrite (Hverr v (or_introl eq_refl)).
    unfold stopsScan at 1. fold (accepted filter v).
    destruct (accepted filter v); simpl.
    + unfold Collect.
      pose proof (ReadFile_canRead fs (vpath v)) as Hread.
      destruct (canRead fs (vpath v)); simpl.
      * destruct Hread as (content & _ & Hcontent).
        assert (Hentry : entryOf md5sum fs v = mkFile (vpath v) (md5sum content))
          by (unfold entryOf; now rewrite Hcontent).
        rewrite Hcontent. simpl.
        specialize (IH (fun u Hu => Hverr u (or_intror Hu))
                       (mkChecklist (files c ++ [mkFile (vpath v) (md5sum content)]))).
        destruct (List.find _ vs); [exact IH|].
        rewrite IH. simpl. now rewrite Hentry, <- app_assoc.
      * rewrite Hread. eauto.
    + apply IH. intros u Hu. apply Hverr. now right.
Qed.

(** X2: what [ChecklistFromDir] returns.  A root that does not exist gives
    the error of [Lstat]; otherwise the scan fails with the read error of
    the first accepted path it cannot read (a directory the filter accepts,
    for one) and returns no store; otherwise it returns the store of the
    accepted paths in the order of the walk, each with the fingerprint of
    its bytes. *)
Theorem ChecklistFromDir_result (fs : gmap string node) (dir : string)
    (filter : string -> option FileInfo -> bool) :
  ChecklistFromDir md5sum fs dir filter =
  match fs !! dir with
  | None => Returns (None, Some (PathError "lstat" dir ENOENT))
  | Some _ =>
      match List.find (stopsScan fs filter) (walkOrder fs dir) with
      | Some v => Returns (None, Some (readFailure fs (vpath v)))
      | None =>
          Returns (Some (mkChecklist (map (entryOf md5sum fs)
                                          (List.filter (accepted filter)
                                                       (walkOrder fs dir)))),
                   None)
      end
  end.
Proof.
  unfold ChecklistFromDir, Walk.
  destruct (fs !! dir) as [n|] eqn:Hroot.
  - pose proof (collectVisit_run fs filter (walkOrder fs dir)
                  (walkOrder_no_error fs dir n Hroot) (mkChecklist [])) as Hrun.
    destruct (List.find _ _).
    + destruct Hrun as [c' ->]. reflexivity.
    + rewrite Hrun. reflexivity.
  - unfold walkOrder. rewrite Hroot. reflexivity.
Qed.

Lemma scanned_entries_unchanged (fs : gmap string node) (vs : list visit) :
  (forall v, In v vs -> canRead fs (vpath v) = true) ->
  List.find (fun f => negb (canRead fs (path f))) (map (entryOf md5sum fs) vs) = None
  /\ List.filter (fingerprintDiffers md5sum fs) (map (entryOf md5sum fs) vs) = [].
Proof.
  induction vs as [|v vs IH]; intros Hread; [now split|].
  destruct (IH (fun u Hu => Hread u (or_intror Hu))) as [IH1 IH2].
  pose proof (Hread v (or_introl eq_refl)) as Hv.
  pose proof (ReadFile_canRead fs (vpath v)) as Hfile. rewrite Hv in Hfile.
  destruct Hfile as (content & Hfs & Hcontent).
  simpl. rewrite Hv. simpl. split; [exact IH1|].
  unfold fingerprintDiffers at 1, entryOf at 1 2. simpl.
  rewrite Hfs, Hcontent. simpl. now rewrite String.eqb_refl.
Qed.

(** X3: a snapshot diffed against the file system it was taken from reports
    no change: when [ChecklistFromDir] returns a store, [Diff] on that store
    and the same file system returns no path and no error. *)
Theorem Diff_of_fresh_scan_is_empty (fs : gmap string node) (dir : string)
    (filter : string -> option FileInfo -> bool) (c : Checklist) :
  ChecklistFromDir md5sum fs dir filter = Returns (Some c, None) ->
  Diff md5sum fs c = (([], None), c).
Proof.
  intros Hscan.
  assert (Hspec : exists n, fs !! dir = Some n
            /\ List.find (stopsScan fs filter) (walkOrder fs dir) = None
            /\ c = mkChecklist (map (entryOf md5sum fs)
                                    (List.filter (accepted filter) (walkOrder fs dir)))).
  { unfold ChecklistFromDir, Walk in Hscan.
    destruct (fs !! dir) as [n|] eqn:Hroot.
    - exists n. split; [reflexivity|].
      pose proof (collectVisit_run fs filter (walkOrder fs dir)
                    (walkOrder_no_error fs dir n Hroot) (mkChecklist [])) as Hrun.
      destruct (List.find _ _).
      + destruct Hrun as [c' Hrun]. rewrite Hrun in Hscan. discriminate.
      + rewrite Hrun in Hscan. injection Hscan as <-. now split.
    - unfold walkOrder in Hscan. rewrite Hroot in Hscan. discriminate. }
  destruct Hspec as (n & _ & Hnone & ->).
  unfold Diff. rewrite diffRange_spec. simpl files.
  destruct (scanned_entries_unchanged fs (List.filter (accepted filter) (walkOrder fs dir)))
    as [-> ->]; [|reflexivity].
  intros v Hv. apply filter_In in Hv as [Hin Hacc].
  pose proof (find_none _ _ Hnone v Hin) as Hstop.
  unfold stopsScan in Hstop. rewrite Hacc in Hstop. simpl in Hstop.
  now apply negb_false_iff in Hstop.
Qed.

End StoreFacts.

Lemma Diff_of_fresh_scan_is_empty_witness :
  journal.Diff sampleDigest sampleTree sampleScan = (([], None), sampleScan).
Proof.
  apply (Diff_of_fresh_scan_is_empty sampleDigest sampleTree "/j"
           main.nonHiddenFilesFilter sampleScan).
  vm_compute. reflexivity.
Defined.

(** *** Parsing *)

Section ParseMore.

Import journal bufio.

(** X4: [ChecklistFromReader] ends on every reader whose own error is not
    [bufio.ErrBufferFull] (a file, a buffer): each turn of its loop that
    does not leave it consumes at least one byte. *)
Theorem ChecklistFromReader_terminates (input : io.Reader) :
  io.final input <> ErrBufferFull ->
  ended (ChecklistFromReader input) = true.
Proof.
  intros Hfinal.
  assert (H : readLines (S (String.length (io.data input))) (NewReader input)
                        (mkChecklist []) <> Diverges)
    by (apply readLines_ends; [simpl; lia | apply NewReader_size | exact Hfinal]).
  unfold ChecklistFromReader. destruct (readLines _ _ _); try reflexivity.
  now contradiction H.
Qed.

Lemma ChecklistFromReader_terminates_witness :
  ended (ChecklistFromReader
           (io.mkReader "0cc1 /j/a" (PathError "read" "/j/.check" EISDIR))) = true.
Proof. apply ChecklistFromReader_terminates. discriminate. Defined.

Lemma ReadLine_end (size : nat) (final : error) :
  1 <= size ->
  final <> ErrBufferFull ->
  ReadLine (mkReader (io.mkReader "" final) size)
  = (("", false, Some final), mkReader (io.mkReader "" final) size).
Proof.
  intros Hsize Hfinal. destruct size; [lia|].
  destruct final; try reflexivity. congruence.
Qed.

(** X5: a failure of the reader is returned as it is: when the reader fails
    with an error after whole records, [ChecklistFromReader] returns no
    store and that error. *)
Theorem ChecklistFromReader_returns_read_error (l : list file) (final : error) :
  Forall (fun f => wholeLine (record f) = true) l ->
  final <> ErrBufferFull ->
  ChecklistFromReader (io.mkReader (records l) final) = Returns (None, Some final).
Proof.
  intros Hall Hfinal. unfold ChecklistFromReader.
  rewrite NewReader_eq. simpl io.data.
  pose proof (records_length l) as Hlen.
  replace (S (String.length (records l)))
    with (List.length l + S (String.length (records l) - List.length l)) by lia.
  rewrite <- (append_empty_r (records l)) at 2.
  destruct (readLines_records final l (S (String.length (records l) - List.length l)) ""
              (mkChecklist []) Hall) as [c' ->].
  rewrite readLines_S, (ReadLine_end _ final defaultBufSize_pos Hfinal). reflexivity.
Qed.

Lemma ChecklistFromReader_returns_read_error_witness :
  ChecklistFromReader
    (io.mkReader (records [mkFile "/j/a" "0cc1"]) (PathError "read" "/j/.check" EACCES))
  = Returns (None, Some (PathError "read" "/j/.check" EACCES)).
Proof.
  apply ChecklistFromReader_returns_read_error;
    [repeat constructor | discriminate].
Defined.

End ParseMore.

Lemma Diff_identical_or_changed_witness :
  ("B2" = "B" ->
   ~ In "/j/b" (fst (fst (journal.Diff sampleDigest (os.fs sampleUnlocked)
                            (journal.mkChecklist [journal.mkFile "/j/a" "<A>";
                                                  journal.mkFile "/j/b" "<B>"])))))
  /\ (sampleDigest "B2" <> sampleDigest "B" ->
      In "/j/b" (fst (fst (journal.Diff sampleDigest (os.fs sampleUnlocked)
                             (journal.mkChecklist [journal.mkFile "/j/a" "<A>";
                                                   journal.mkFile "/j/b" "<B>"]))))).
Proof.
  apply (Diff_identical_or_changed sampleDigest (os.fs sampleUnlocked)
           (journal.mkChecklist [journal.mkFile "/j/a" "<A>"; journal.mkFile "/j/b" "<B>"])
           (journal.mkFile "/j/b" "<B>") "B" "B2").
  - reflexivity.
  - simpl. auto.
  - intros g [<-|[<-|[]]]; simpl; [discriminate | reflexivity].
  - reflexivity.
  - reflexivity.
Defined.

(** ** Discovery of the pairs *)

Section StringFacts.

Lemma list_of_append (a b : string) :
  list_ascii_of_string (a ++ b) = app (list_ascii_of_string a) (list_ascii_of_string b).
Proof.
  induction a as [|x a IH]; [reflexivity|].
  rewrite append_cons. simpl. now rewrite IH.
Qed.

Lemma string_of_app (l1 l2 : list ascii) :
  string_of_list_ascii (app l1 l2)
  = (string_of_list_ascii l1 ++ string_of_list_ascii l2)%string.
Proof.
  induction l1 as [|x l1 IH]; [reflexivity|].
  simpl. now rewrite IH.
Qed.

Lemma reverse_append (a b : string) :
  strings.reverse (a ++ b) = (strings.reverse b ++ strings.reverse a)%string.
Proof.
  unfold strings.reverse. now rewrite list_of_append, rev_app_distr, string_of_app.
Qed.

Lemma reverse_involutive (s : string) : strings.reverse (strings.reverse s) = s.
Proof.
  unfold strings.reverse.
  now rewrite list_ascii_of_string_of_list_ascii, rev_involutive,
    string_of_list_ascii_of_string.
Qed.

Lemma HasPrefix_append (p t : string) : strings.HasPrefix (p ++ t) p = true.
Proof.
  induction p as [|x p IH]; [now destruct t|].
  rewrite append_cons. simpl. now rewrite Ascii.eqb_refl, IH.
Qed.

Lemma takeWhile_dropWhile (f : ascii -> bool) (s : string) :
  (filepath.takeWhile f s ++ filepath.dropWhile f s)%string = s.
Proof.
  induction s as [|x s IH]; [reflexivity|].
  simpl. destruct (f x); [|reflexivity].
  now rewrite append_cons, IH.
Qed.

Lemma extRev_prefix (e r : string) :
  filepath.extRev e = Some r -> exists t, e = (r ++ t)%string.
Proof.
  revert r. induction e as [|x e IH]; intros r H; simpl in H; [discriminate|].
  destruct (Ascii.eqb x "."%char).
  - injection H as <-. now exists e.
  - destruct (filepath.extRev e) as [r'|]; [|discriminate].
    injection H as <-. destruct (IH r' eq_refl) as [t ->]. now exists t.
Qed.

Lemma substring_whole (s : string) : String.substring 0 (String.length s) s = s.
Proof.
  rewrite <- (append_empty_r s) at 2. apply substring_prefix.
Qed.

(** The path without its extension, followed by its extension, is the
    path. *)
Lemma TrimSuffix_Ext (path : string) :
  (strings.TrimSuffix path (filepath.Ext path) ++ filepath.Ext path)%string = path.
Proof.
  unfold filepath.Ext, filepath.lastElementRev.
  destruct (filepath.extRev _) as [r|] eqn:E.
  - apply extRev_prefix in E as [t Ht].
    pose proof (takeWhile_dropWhile filepath.notSeparator (strings.reverse path)) as Hsplit.
    rewrite Ht, append_assoc in Hsplit.
    assert (Hpath : path = (strings.reverse
                              (t ++ filepath.dropWhile filepath.notSeparator
                                                       (strings.reverse path))
                            ++ strings.reverse r)%string).
    { rewrite <- reverse_append, Hsplit. now rewrite reverse_involutive. }
    set (head := strings.reverse (t ++ _)) in Hpath.
    unfold strings.TrimSuffix, strings.HasSuffix.
    rewrite reverse_involutive, <- Hsplit, HasPrefix_append.
    rewrite Hpath at 1 2. rewrite string_length_append.
    replace (String.length head + String.length (strings.reverse r)
             - String.length (strings.reverse r)) with (String.length head) by lia.
    rewrite (substring_prefix head). now rewrite <- Hpath.
  - unfold strings.TrimSuffix, strings.HasSuffix.
    change (strings.reverse "") with "".
    replace (strings.HasPrefix (strings.reverse path) "") with true
      by (now destruct (strings.reverse path)).
    rewrite Nat.sub_0_r, substring_whole. apply append_empty_r.
Qed.

End StringFacts.

Section DiscoveryFacts.

Import os main.



End DiscoveryFacts.


Section DiscoveryFactsFirstRevision.

Import os.

Lemma pipeline_walkFile_run (vs : list visit) :
  (forall v, In v vs -> verr v = None) ->
  forall j,
    walkVisits pipeline.walkFile vs j
    = Returns (None,
               pipeline.mkJournal
                 (pipeline.RootDir j)
                 (app (pipeline.Files j)
                      (map (fun v => pipeline.NewFilePair
                                       (vpath v)
                                       (strings.TrimSuffix (vpath v)
                                                           (pipeline.encryptedFileExt j)))
                           (List.filter (isArtifact (pipeline.encryptedFileExt j)) vs)))
                 (pipeline.encryptedFileExt j) (pipeline.gpgCommand j)
                 (pipeline.gpgReceiver j)).
Proof.
  induction vs as [|v vs IH]; intros Hverr j; simpl.
  - rewrite app_nil_r. now destruct j.
  - unfold pipeline.walkFile at 1. rewrite (Hverr v (or_introl eq_refl)).
    unfold isArtifact at 1.
    destruct (String.eqb (filepath.Ext (vpath v)) (pipeline.encryptedFileExt j)); simpl.
    + rewrite IH by (intros u Hu; apply Hverr; now right). simpl.
      now rewrite <- app_assoc.
    + apply IH. intros u Hu. apply Hverr. now right.
Qed.

(** X8: the journal the first revision of [NewJournalFromArgs] returns: the
    recipient is always the empty string (this revision reads no [.gpgid]),
    the pairs are the visited paths whose extension is [.gpg], in the order
    of the walk, none with a fingerprint yet, and the encrypted path of
    every pair is its plaintext path followed by [.gpg]. *)
Theorem first_NewJournalFromArgs_journal (args : list string) (w w' : World)
    (j : pipeline.Journal) :
  pipeline.NewJournalFromArgs args w = (Returns (Some j, None), w') ->
  w' = w
  /\ pipeline.RootDir j = rootOf args w
  /\ pipeline.gpgReceiver j = ""
  /\ pipeline.Files j
     = map (fun v => pipeline.NewFilePair (vpath v) (strings.TrimSuffix (vpath v) ".gpg"))
           (List.filter (isArtifact ".gpg") (walkOrder (fs w) (pipeline.RootDir j)))
  /\ forall f, In f (pipeline.Files j) ->
       pipeline.enc f = (pipeline.plain f ++ ".gpg")%string /\ pipeline.plainHash f = "".
Proof.
  unfold pipeline.NewJournalFromArgs, rootOf.
  set (root := match args with [] => _ | _ => _ end).
  assert (Hroot : fst root = match args with
                             | [] => fst (Getwd w)
                             | arg0 :: _ => fst (Abs arg0 w)
                             end).
  { unfold root. destruct args as [|arg0 args].
    - now destruct (Getwd w) as [d [e|]].
    - now destruct (Abs arg0 w) as [d [e|]]. }
  destruct root as [dir [err|]]; [discriminate|]. simpl in Hroot. rewrite <- Hroot.
  simpl pipeline.RootDir.
  unfold Walk. destruct (fs w !! dir) as [n|] eqn:Hdir.
  - rewrite (pipeline_walkFile_run _ (walkOrder_no_error (fs w) dir n Hdir)). simpl.
    intros H. injection H as <- <-. simpl.
    do 4 (split; [reflexivity|]).
    intros f Hf. apply in_map_iff in Hf as (v & <- & Hv).
    split; [|reflexivity].
    apply filter_In in Hv as [_ Hext]. apply String.eqb_eq in Hext.
    simpl. change ".gpg" with main.DefaultFileExt.
    rewrite <- Hext. symmetry. apply TrimSuffix_Ext.
  - unfold walkOrder. rewrite Hdir. simpl. discriminate.
Qed.

End DiscoveryFactsFirstRevision.

Lemma first_NewJournalFromArgs_journal_witness :
  let j := pipeline.mkJournal "/j" [pipeline.NewFilePair "/j/a.gpg" "/j/a"] ".gpg" "gpg" "" in
  sampleSealed = sampleSealed
  /\ pipeline.RootDir j = rootOf [] sampleSealed
  /\ pipeline.gpgReceiver j = ""
  /\ pipeline.Files j
     = map (fun v => pipeline.NewFilePair (os.vpath v)
                                          (strings.TrimSuffix (os.vpath v) ".gpg"))
           (List.filter (isArtifact ".gpg")
                        (os.walkOrder (os.fs sampleSealed) (pipeline.RootDir j)))
  /\ forall f, In f (pipeline.Files j) ->
       pipeline.enc f = (pipeline.plain f ++ ".gpg")%string /\ pipeline.plainHash f = "".
Proof.
  apply (first_NewJournalFromArgs_journal [] sampleSealed sampleSealed).
  vm_compute. reflexivity.
Defined.

(** ** Footprints *)

Section FootprintFacts.

Import os main.

(** X9: [Reset] undoes [LeaveFootprint]: on a pair whose encrypted artifact
    is a file and whose hidden name is free, hiding the artifact and
    resetting it both succeed and leave the file system as it was. *)
Theorem Reset_undoes_LeaveFootprint (f : FilePair) (w : World) (c : string) (r : bool) :
  fs w !! enc f = Some (File c r) ->
  fs w !! footprint f = None ->
  fst (LeaveFootprint f w) = None
  /\ fst (Reset f (snd (LeaveFootprint f w))) = None
  /\ fs (snd (Reset f (snd (LeaveFootprint f w)))) = fs w.
Proof.
  intros Henc Hfoot.
  assert (Hne : enc f <> footprint f) by congruence.
  assert (Hleave : LeaveFootprint f w
                   = (None, mkWorld (<[footprint f := File c r]> (delete (enc f) (fs w)))
                                    (cwd w) (stdout w)
                                    (app (execs w) [("mv", [enc f; footprint f])]))).
  { unfold LeaveFootprint, Run, logExec, setFS, mvFS. simpl. rewrite Hfoot, Henc.
    destruct (String.eqb_spec (enc f) (footprint f)) as [Heq|_]; [contradiction|].
    now rewrite ?Hfoot. }
  rewrite Hleave. simpl.
  rewrite (Reset_hidden f _ c r); simpl.
  - repeat split. apply map_eq. intros p.
    destruct (decide (p = enc f)) as [->|Hp1].
    + now rewrite lookup_insert_eq.
    + rewrite lookup_insert_ne by congruence.
      destruct (decide (p = footprint f)) as [->|Hp2].
      * now rewrite lookup_delete_eq.
      * rewrite lookup_delete_ne, lookup_insert_ne, lookup_delete_ne; congruence.
  - apply lookup_insert_eq.
  - rewrite lookup_insert_ne, lookup_delete_eq; congruence.
Qed.

End FootprintFacts.

Lemma Reset_undoes_LeaveFootprint_witness :
  let f := main.mkFilePair "/j/a.gpg" "/j/a" false in
  fst (main.LeaveFootprint f sampleSealed) = None
  /\ fst (main.Reset f (snd (main.LeaveFootprint f sampleSealed))) = None
  /\ os.fs (snd (main.Reset f (snd (main.LeaveFootprint f sampleSealed))))
     = os.fs sampleSealed.
Proof.
  apply (Reset_undoes_LeaveFootprint (main.mkFilePair "/j/a.gpg" "/j/a" false)
           sampleSealed "gpg:A" true); reflexivity.
Defined.

(** ** The loop of Unlock *)

Section UnlockLoopFacts.

Import os main.

Variable gpgDecrypt : string -> string -> option string.





Variable gpgEncrypt : string -> string -> option string.




End UnlockLoopFacts.

Section UnlockLoopExamples.

Import os main.





End UnlockLoopExamples.

(** ** The checklist file of Unlock *)

Section ChecklistFileFacts.

Import os main.

Variable md5sum : string -> string.
Variable gpgDecrypt : string -> string -> option string.

Lemma Writer_eta (b : bufio.Writer) :
  bufio.werr b = None ->
  b = bufio.mkWriter (bufio.wr b) (bufio.buf b) (bufio.wsize b) None.
Proof. destruct b; simpl; now intros ->. Qed.

(** What [WriteString] does to the file behind a healthy writer: the bytes
    of the file followed by the bytes of the buffer grow by the string. *)
Lemma WriteString_file (s : string) :
  forall (b : bufio.Writer) (fs : gmap string node) (content : string) (r : bool),
    fs !! bufio.wr b = Some (File content r) ->
    bufio.werr b = None ->
    exists content' buf',
      bufio.WriteString b s fs
      = (None, bufio.mkWriter (bufio.wr b) buf' (bufio.wsize b) None,
         <[bufio.wr b := File content' r]> fs)
      /\ (content' ++ buf')%string = (content ++ bufio.buf b ++ s)%string.
Proof.
  induction s as [|c s IH]; intros b fs content r Hfile Herr.
  - exists content, (bufio.buf b). simpl. rewrite Herr.
    rewrite (insert_id _ _ _ Hfile), <- (Writer_eta b Herr).
    split; [reflexivity | now rewrite append_empty_r].
  - simpl. rewrite Herr.
    destruct (Nat.ltb _ _).
    + destruct (IH (bufio.mkWriter (bufio.wr b) (bufio.buf b ++ String c "")
                                   (bufio.wsize b) None)
                   fs content r Hfile eq_refl) as (content' & buf' & -> & Heq).
      exists content', buf'. split; [reflexivity|].
      rewrite Heq. simpl. now rewrite !append_assoc.
    + unfold bufio.Flush. rewrite Herr.
      destruct (String.eqb_spec (bufio.buf b) "") as [Hempty|_].
      * destruct (IH (bufio.mkWriter (bufio.wr b) (bufio.buf b ++ String c "")
                                     (bufio.wsize b) None)
                     fs content r Hfile eq_refl) as (content' & buf' & -> & Heq).
        exists content', buf'. split; [reflexivity|].
        rewrite Heq. simpl. now rewrite !append_assoc.
      * unfold FileWrite. rewrite Hfile. simpl.
        destruct (IH (bufio.mkWriter (bufio.wr b) ("" ++ String c "") (bufio.wsize b) None)
                     (<[bufio.wr b := File (content ++ bufio.buf b) r]> fs)
                     (content ++ bufio.buf b)%string r)
          as (content' & buf' & -> & Heq);
          [apply lookup_insert_eq | reflexivity |].
        exists content', buf'. simpl. rewrite insert_insert_eq.
        split; [reflexivity|].
        rewrite Heq. simpl. now rewrite !append_assoc.
Qed.

Lemma writeRange_file (l : list journal.file) :
  forall (b : bufio.Writer) (fs : gmap string node) (content : string) (r : bool),
    fs !! bufio.wr b = Some (File content r) ->
    bufio.werr b = None ->
    exists content' buf',
      journal.writeRange l b fs
      = (None, bufio.mkWriter (bufio.wr b) buf' (bufio.wsize b) None,
         <[bufio.wr b := File content' r]> fs)
      /\ (content' ++ buf')%string
         = (content ++ bufio.buf b ++ concatAll (map record l))%string.
Proof.
  induction l as [|f l IH]; intros b fs content r Hfile Herr.
  - exists content, (bufio.buf b). simpl.
    rewrite (insert_id _ _ _ Hfile), <- (Writer_eta b Herr).
    split; [reflexivity | now rewrite append_empty_r].
  - simpl.
    change (@io.WriteString bufio.Writer bufio.Writer_Writer) with bufio.WriteString.
    destruct (WriteString_file (journal.Sprintf_s_s (journal.hash f) (journal.path f))
                b fs content r Hfile Herr) as (content1 & buf1 & -> & Heq1).
    cbv beta iota.
    destruct (IH (bufio.mkWriter (bufio.wr b) buf1 (bufio.wsize b) None)
                 (<[bufio.wr b := File content1 r]> fs) content1 r)
      as (content' & buf' & -> & Heq); [apply lookup_insert_eq | reflexivity |].
    exists content', buf'. simpl. rewrite insert_insert_eq.
    split; [reflexivity|].
    rewrite Heq. simpl. rewrite <- !append_assoc, Heq1.
    unfold journal.Sprintf_s_s, record. now rewrite !append_assoc.
Qed.

(** X12: the checklist file [Unlock] leaves.  When the loop over the pairs
    and the scan succeed and the checklist file can be created, [Unlock]
    returns nil and the checklist file holds exactly the entries of the
    scanned store, each as fingerprint, space, path, one after the other
    with no line break; nothing else changes after the loop. *)
Theorem Unlock_writes_the_scanned_store (j : Journal) (w w1 : World)
    (c : journal.Checklist) :
  unlockRange gpgDecrypt j (Files j) w = (None, w1) ->
  journal.ChecklistFromDir md5sum (fs w1) (RootDir j) nonHiddenFilesFilter
  = Returns (Some c, None) ->
  snd (fst (Create (checkPath (RootDir j)) (fs w1))) = None ->
  Unlock md5sum gpgDecrypt j w
  = (Returns None,
     setFS w1 (<[checkPath (RootDir j) :=
                  File (concatAll (map record (journal.files c))) true]> (fs w1))).
Proof.
  intros Hloop Hscan Hcreate. unfold Unlock. rewrite Hloop, Hscan.
  fold (checkPath (RootDir j)).
  destruct (Create (checkPath (RootDir j)) (fs w1)) as [[checkfile err] fs'] eqn:E.
  simpl in Hcreate. subst err.
  pose proof (Create_makes _ _ _ _ E) as ->.
  assert (checkfile = checkPath (RootDir j)) as ->.
  { unfold Create in E.
    destruct (fs w1 !! checkPath (RootDir j)) as [[? [|]|]|];
      try discriminate; now injection E as <-. }
  unfold journal.Write.
  destruct (writeRange_file (journal.files c) (bufio.NewWriter (checkPath (RootDir j)))
              (<[checkPath (RootDir j) := File "" true]> (fs w1)) "" true)
    as (content' & buf' & Hwrite & Heq);
    [apply lookup_insert_eq | reflexivity |].
  simpl in Hwrite. rewrite Hwrite. rewrite insert_insert_eq.
  unfold bufio.Flush. simpl.
  destruct (String.eqb_spec buf' "") as [->|_].
  - rewrite append_empty_r in Heq. simpl in Heq. now rewrite Heq.
  - unfold FileWrite. simpl. rewrite lookup_insert_eq, insert_insert_eq.
    simpl in Heq. now rewrite Heq.
Qed.

End ChecklistFileFacts.

Lemma Unlock_writes_the_scanned_store_witness :
  main.Unlock sampleDigest sampleDecrypt sampleSequential sampleSealed
  = (Returns None,
     os.setFS (snd (main.unlockRange sampleDecrypt sampleSequential
                                     (main.Files sampleSequential) sampleSealed))
              (<[checkPath (main.RootDir sampleSequential) :=
                   disk.File (concatAll (map record (journal.files sampleScan))) true]>
                 (os.fs (snd (main.unlockRange sampleDecrypt sampleSequential
                                               (main.Files sampleSequential)
                                               sampleSealed))))).
Proof.
  apply (Unlock_writes_the_scanned_store sampleDigest sampleDecrypt sampleSequential
           sampleSealed); vm_compute; reflexivity.
Defined.

(** ** Lock as a whole, and the unlock command *)

Section LockMore.

Import os main.

Variable md5sum : string -> string.
Variable gpgDecrypt : string -> string -> option string.
Variable gpgEncrypt : string -> string -> option string.

(** X13: [Lock] never returns nil and never changes anything: whatever the
    journal and the world, it returns an error, panics, or hands back the
    world it was given; no command is run and no file is touched. *)
Theorem Lock_changes_nothing (j : Journal) (w : World) :
  snd (Lock md5sum gpgEncrypt j w) = w
  /\ completed (fst (Lock md5sum gpgEncrypt j w)) = false.
Proof.
  unfold Lock. destruct (Open _ _) as [checkfile [err|]]; [now split|].
  unfold journal.ChecklistFromReader.
  match goal with |- context [journal.readLines ?n ?r ?c] =>
    pose proof (readLines_no_store n r c) as Hno;
    destruct (journal.readLines n r c) as [[[c'|] [e|]]| | |]
  end; simpl in *; try discriminate; now split.
Qed.

(** X14: an encryption that fails stops the loop of [Lock] at once: for a
    pair whose plaintext path is in the changed set and for which [gpg]
    fails, the loop returns the error of [gpg] after that one command, with
    the file system as it was; the hidden marker of the pair and the pairs
    after it are not touched. *)
Theorem Lock_loop_stops_at_failed_encryption (j : Journal) (changes : list string)
    (f : FilePair) (rest : list FilePair) (w : World) :
  In (plain f) changes ->
  gpgFS gpgEncrypt (recipientArg j) (plain f) (enc f) (fs w) = None ->
  exists w',
    lockRange gpgEncrypt j changes (f :: rest) w = (Some (ExitError (gpgCommand j)), w')
    /\ fs w' = fs w
    /\ execs w' = app (execs w)
                      [(gpgCommand j, ["-e"; "--batch"; "--yes"; "-o" ++ enc f;
                                       "-r" ++ recipientArg j; plain f])].
Proof.
  intros Hin Hfail. apply hasChanged_In in Hin.
  simpl. rewrite Hin. simpl.
  unfold Encrypt, Run, logExec, setFS, Printf. simpl.
  unfold recipientArg in Hfail. rewrite Hfail.
  eexists. split; [reflexivity|]. now split.
Qed.


End LockMore.

Lemma Lock_loop_stops_at_failed_encryption_witness :
  exists w',
    main.lockRange sampleEncrypt sampleJournal ["/j/b"]
                   [main.mkFilePair "/j/b.gpg" "/j/b" false;
                    main.mkFilePair "/j/a.gpg" "/j/a" false]
                   (os.setFS sampleUnlocked (delete "/j/b" (os.fs sampleUnlocked)))
    = (Some (ExitError (main.gpgCommand sampleJournal)), w')
    /\ os.fs w' = os.fs (os.setFS sampleUnlocked (delete "/j/b" (os.fs sampleUnlocked)))
    /\ os.execs w'
       = app (os.execs (os.setFS sampleUnlocked (delete "/j/b" (os.fs sampleUnlocked))))
             [(main.gpgCommand sampleJournal,
               ["-e"; "--batch"; "--yes"; "-o" ++ "/j/b.gpg";
                "-r" ++ recipientArg sampleJournal; "/j/b"])].
Proof.
  apply (Lock_loop_stops_at_failed_encryption sampleEncrypt sampleJournal ["/j/b"]
           (main.mkFilePair "/j/b.gpg" "/j/b" false)
           [main.mkFilePair "/j/a.gpg" "/j/a" false]
           (os.setFS sampleUnlocked (delete "/j/b" (os.fs sampleUnlocked)))).
  - simpl. auto.
  - vm_compute. reflexivity.
Defined.


(** ** Lock on the journal that Unlock opened *)

Section LockAfterUnlock.

Import os main.

Variable md5sum : string -> string.
Variable gpgEncrypt : string -> string -> option string.




End LockAfterUnlock.




(** ** The pipelined [Unlock] under every schedule *)

Section PipelineInvariants.
Import os.
Variable md5sum : string -> string.
Variable gpgDecrypt : string -> string -> option string.

Ltac pipeline_turn Hstep :=
  repeat
    (match type of Hstep with
     | None = Some _ => discriminate Hstep
     | Some _ = Some _ => fail 1
     | context [pipeline.Decrypt ?d ?fp ?j ?w] =>
         destruct (pipeline.Decrypt d fp j w) as [[?|] ?]
     | context [bufio.Write ?b ?s ?fs] => destruct (bufio.Write b s fs) as [[? ?] ?]
     | context [bufio.Flush ?b ?fs] => destruct (bufio.Flush b fs) as [[? ?] ?]
     | context [ReadFile ?fs ?p] => destruct (ReadFile fs p) as [? [?|]]
     | context [Z.eqb ?a ?b] => destruct (Z.eqb_spec a b)
     | context [match ?x with _ => _ end] => destruct x
     end; simpl in Hstep);
  injection Hstep as <-.

Ltac pipeline_open Hstep :=
  unfold pipeline.stepOf, pipeline.stepMain, pipeline.stepDecrypt, pipeline.stepHash,
    pipeline.stepChecksum, pipeline.CalculateHash, pipeline.exit in Hstep;
  simpl in Hstep.

Lemma counted_step (j : pipeline.Journal) (a : pipeline.actor) (s s' : pipeline.state) :
  counted s ->
  pipeline.stepOf md5sum gpgDecrypt j a s = Some s' ->
  counted s'.
Proof.
  intros Hc Hstep.
  destruct s as [wd pc dch hch cch dW hW cW wg chk ex].
  pipeline_open Hstep.
  pipeline_turn Hstep;
    unfold counted, inFlight in *; simpl in *; rewrite ?length_app; simpl; lia.
Qed.

Lemma started_step (j : pipeline.Journal) (a : pipeline.actor) (s s' : pipeline.state) :
  started s ->
  pipeline.stepOf md5sum gpgDecrypt j a s = Some s' ->
  started s'.
Proof.
  intros Hc Hstep.
  destruct s as [wd pc dch hch cch dW hW cW wg chk ex].
  pipeline_open Hstep.
  pipeline_turn Hstep;
    unfold started in *; simpl in *;
    try (right; eauto; fail);
    try (destruct Hc as [Hc|Hc]; [discriminate Hc | right; exact Hc]); auto.
Qed.

Lemma stepsLeft_step (j : pipeline.Journal) (a : pipeline.actor) (s s' : pipeline.state) :
  pipeline.stepOf md5sum gpgDecrypt j a s = Some s' ->
  stepsLeft j s' < stepsLeft j s.
Proof.
  intros Hstep.
  destruct s as [wd pc dch hch cch dW hW cW wg chk ex].
  pipeline_open Hstep.
  pipeline_turn Hstep;
    unfold stepsLeft, pending, mainLeft, workerLeft; simpl; rewrite ?length_app; simpl; lia.
Qed.

End PipelineInvariants.

Section WriterFacts.
Import os.

Lemma substring_split (p : string) :
  forall n, n <= String.length p ->
    (String.substring 0 n p ++ String.substring n (String.length p - n) p)%string = p.
Proof.
  induction p as [|c p IH]; intros n Hn.
  - destruct n; reflexivity.
  - destruct n as [|n].
    + change (String.substring 0 (String.length (String c p) - 0) (String c p) = String c p).
      rewrite Nat.sub_0_r. apply substring_whole.
    + simpl in Hn.
      change (String c (String.substring 0 n p
                        ++ String.substring n (String.length p - n) p)%string
              = String c p).
      rewrite IH by lia. reflexivity.
Qed.

Lemma concatAll_app (l1 l2 : list string) :
  concatAll (app l1 l2) = (concatAll l1 ++ concatAll l2)%string.
Proof.
  induction l1 as [|x l1 IH]; [reflexivity|].
  simpl. now rewrite IH, append_assoc.
Qed.

(** What [Flush] does to the file behind a sound writer. *)
Lemma Flush_file (b : bufio.Writer) (fs : gmap string node) (content : string) (r : bool) :
  fs !! bufio.wr b = Some (File content r) ->
  bufio.werr b = None ->
  bufio.Flush b fs
  = (None, bufio.mkWriter (bufio.wr b) "" (bufio.wsize b) None,
     <[bufio.wr b := File (content ++ bufio.buf b) r]> fs).
Proof.
  intros Hfile Herr. unfold bufio.Flush. rewrite Herr.
  destruct (String.eqb_spec (bufio.buf b) "") as [Hempty|_].
  - rewrite Hempty, append_empty_r, (insert_id _ _ _ Hfile).
    rewrite (Writer_eta b Herr) at 1. now rewrite Hempty.
  - unfold FileWrite. now rewrite Hfile.
Qed.

(** What [Write] does to the file behind a sound writer: the bytes of the
    file followed by the bytes of the buffer grow by the bytes written. *)
Lemma Write_file (b : bufio.Writer) (p : string) (fs : gmap string node)
    (content : string) (r : bool) :
  fs !! bufio.wr b = Some (File content r) ->
  bufio.werr b = None ->
  exists content' buf',
    bufio.Write b p fs
    = (None, bufio.mkWriter (bufio.wr b) buf' (bufio.wsize b) None,
       <[bufio.wr b := File content' r]> fs)
    /\ (content' ++ buf')%string = (content ++ bufio.buf b ++ p)%string.
Proof.
  intros Hfile Herr. unfold bufio.Write. rewrite Herr.
  set (available := bufio.wsize b - String.length (bufio.buf b)).
  destruct (Nat.leb_spec (String.length p) available) as [Hfit|Hlong].
  - exists content, (bufio.buf b ++ p)%string.
    now rewrite (insert_id _ _ _ Hfile).
  - destruct (String.eqb_spec (bufio.buf b) "") as [Hempty|_].
    + unfold bufio.writeThrough, FileWrite. rewrite Hfile.
      exists (content ++ p)%string, "".
      rewrite (Writer_eta b Herr) at 1. rewrite Hempty.
      split; [reflexivity | now rewrite append_empty_r].
    + cbv zeta.
      match goal with |- context [bufio.Flush ?f fs] =>
        rewrite (Flush_file f fs content r Hfile eq_refl)
      end.
      cbn [bufio.wr bufio.buf bufio.wsize bufio.werr].
      set (head := String.substring 0 available p).
      set (tail := String.substring available (String.length p - available) p).
      assert (Hsplit : (head ++ tail)%string = p)
        by (apply substring_split; lia).
      destruct (Nat.leb (String.length tail) (bufio.wsize b)).
      * exists (content ++ bufio.buf b ++ head)%string, tail.
        split; [reflexivity|]. now rewrite !append_assoc, Hsplit.
      * unfold bufio.writeThrough, FileWrite.
        cbn [bufio.wr bufio.buf bufio.wsize bufio.werr].
        rewrite lookup_insert_eq, insert_insert_eq.
        exists ((content ++ bufio.buf b ++ head) ++ tail)%string, "".
        split; [reflexivity|]. now rewrite append_empty_r, !append_assoc, Hsplit.
Qed.

Lemma Create_handle (name : string) (fs fs' : gmap string node) (file : string) :
  Create name fs = ((file, None), fs') -> file = name.
Proof.
  unfold Create.
  destruct (fs !! name) as [[content [|]|]|]; intros H; try discriminate;
    now injection H as <- <-.
Qed.

(** What a decryption that succeeds does: the plaintext of the pair holds
    what [gpg] decrypts from its artifact, and no other path changes. *)
Lemma pipeline_Decrypt_effect (gpgDecrypt : string -> string -> option string)
    (fp : pipeline.FilePair) (j : pipeline.Journal) (w w' : World) :
  pipeline.Decrypt gpgDecrypt fp j w = (None, w') ->
  exists ct pt,
    fs w !! pipeline.enc fp = Some (File ct true)
    /\ gpgDecrypt (main.quote ++ pipeline.gpgReceiver j ++ main.quote) ct = Some pt
    /\ fs w' = <[pipeline.plain fp := File pt true]> (fs w).
Proof.
  unfold pipeline.Decrypt, Run, logExec, setFS, main.Printf, main.gpgFS, ReadFile.
  cbn [fs cwd stdout execs].
  destruct (fs w !! pipeline.enc fp) as [[ct [|]|]|]; try discriminate.
  cbn [fst snd].
  destruct (gpgDecrypt _ ct) as [pt|] eqn:Hpt; [|discriminate].
  intros H. exists ct, pt. split; [reflexivity|]. split; [exact Hpt|].
  destruct (fs w !! pipeline.plain fp) as [[? ?|]|]; simpl in H; try discriminate;
    now injection H as <-.
Qed.

Lemma hashed_insert (md5sum : string -> string) (fs : gmap string node)
    (fp : pipeline.FilePair) (p : string) (x : node) :
  p <> pipeline.plain fp ->
  hashed md5sum fs fp -> hashed md5sum (<[p := x]> fs) fp.
Proof.
  intros Hne. unfold hashed, md5Line, ReadFile. now rewrite lookup_insert_ne.
Qed.

Lemma decrypted_insert (gpgDecrypt : string -> string -> option string)
    (j : pipeline.Journal) (w : World) (fs : gmap string node)
    (fp : pipeline.FilePair) (p : string) (x : node) :
  p <> pipeline.plain fp ->
  decrypted gpgDecrypt j w fs fp -> decrypted gpgDecrypt j w (<[p := x]> fs) fp.
Proof.
  intros Hne (ct & pt & H1 & H2 & H3). exists ct, pt.
  now rewrite lookup_insert_ne.
Qed.

End WriterFacts.

Section PipelineRecords.
Import os.
Variable md5sum : string -> string.
Variable gpgDecrypt : string -> string -> option string.

Lemma key_member (l1 l2 : list pipeline.FilePair) (fp : pipeline.FilePair) :
  map key l1 = map key l2 -> In fp l1 ->
  In (pipeline.plain fp) (map pipeline.plain l2)
  /\ exists fp0, In fp0 l2 /\ pipeline.enc fp0 = pipeline.enc fp.
Proof.
  intros Heq Hin. apply (in_map key) in Hin. rewrite Heq in Hin.
  apply in_map_iff in Hin as (fp0 & Hkey & Hin0).
  injection Hkey as Henc Hplain. split.
  - rewrite <- Hplain. now apply in_map.
  - now exists fp0.
Qed.

Lemma key_plains (l1 l2 : list pipeline.FilePair) :
  map key l1 = map key l2 -> map pipeline.plain l1 = map pipeline.plain l2.
Proof.
  intros Heq. apply (f_equal (map snd)) in Heq.
  rewrite !map_map in Heq. exact Heq.
Qed.

Lemma apart (l1 l2 : list pipeline.FilePair) (fp fp' : pipeline.FilePair) :
  List.NoDup (map pipeline.plain (app l1 (fp :: l2))) -> In fp' l1 ->
  pipeline.plain fp <> pipeline.plain fp'.
Proof.
  rewrite map_app. simpl. intros Hnd Hin Heq.
  apply List.NoDup_remove_2 in Hnd. apply Hnd, in_or_app. left.
  rewrite Heq. now apply in_map.
Qed.

Lemma sent_held (k : pipeline.worker) (fp : pipeline.FilePair) :
  In fp (sent k) -> In fp (held k).
Proof. destruct k; simpl; tauto. Qed.

Lemma hashed_key (fs : gmap string node) (fp : pipeline.FilePair) (content : string) :
  ReadFile fs (pipeline.plain fp) = (content, None) ->
  hashed md5sum fs
    (pipeline.mkFilePair (pipeline.enc fp) (pipeline.plain fp)
       (md5sum content ++ " " ++ pipeline.plain fp ++ main.newline)).
Proof. intros H. unfold hashed, md5Line. simpl. now rewrite H. Qed.

Lemma decrypted_key (j : pipeline.Journal) (w : World) (fs : gmap string node)
    (fp : pipeline.FilePair) (sum : string) :
  decrypted gpgDecrypt j w fs fp ->
  decrypted gpgDecrypt j w fs
    (pipeline.mkFilePair (pipeline.enc fp) (pipeline.plain fp) sum).
Proof. exact (fun H => H). Qed.

(** Membership in one list of pairs from membership in another with the
    same elements. *)
Ltac member Hold :=
  let Hin := fresh "Hin" in
  intros ? Hin; apply Hold; revert Hin;
  rewrite ?in_app_iff; simpl; tauto.

Ltac lists := rewrite <- ?app_assoc, ?app_nil_r in *; simpl in *.

Lemma recorded_Main (j : pipeline.Journal) (w : World) (s s' : pipeline.state) :
  separate j -> counted s -> recorded md5sum gpgDecrypt j w s ->
  pipeline.exited s = None ->
  pipeline.stepMain j s = Some s' ->
  recorded md5sum gpgDecrypt j w s'.
Proof.
  intros [Hnd Henc] Hcnt Hrec Hex Hstep.
  destruct s as [wd pc dch hch cch dW hW cW wg chk ex]. simpl in Hex. subst ex.
  unfold recorded in Hrec. cbn [pipeline.exited] in Hrec.
  destruct Hrec as (done & Hord & Hhash & Hdec & Hframe & Hcreate & Hholds).
  unfold pipeline.stepMain in Hstep.
  unfold inOrder, pastHash, pastDecrypt, counted, inFlight in *.
  cbn [pipeline.world pipeline.pc pipeline.decryptCh pipeline.hashCh pipeline.chksumCh
       pipeline.decryptW pipeline.hashW pipeline.chksumW pipeline.wg pipeline.chkWriter
       pipeline.exited] in *.
  destruct pc as [| |[|file rest]| | | |].
  - (* [os.Create] *)
    destruct (Create _ _) as [[handle [err|]] fs'] eqn:E; injection Hstep as <-.
    { unfold recorded, pipeline.exit. simpl. discriminate. }
    pose proof (Create_handle _ _ _ _ E) as ->. apply Create_makes in E. subst fs'.
    rewrite (Hcreate eq_refl) in *.
    destruct Hcnt as [_ Hzero].
    destruct dch, hch, cch, dW, hW, cW; simpl in Hzero; try discriminate.
    unfold recorded. simpl. exists []. simpl.
    split; [exact Hord|]. split; [tauto|]. split; [tauto|].
    split; [|split; [discriminate|]].
    + intros p Hp. rewrite lookup_insert_ne; [now apply Hframe|].
      intros <-. apply Hp. now left.
    + intros _. exists (bufio.NewWriter (filepath.Join [pipeline.RootDir j; ".check"])), "".
      simpl. unfold checkPath. rewrite lookup_insert_eq.
      repeat split.
  - (* [wg.Add] *)
    injection Hstep as <-. unfold recorded. simpl.
    exists done. unfold inOrder, pastHash, pastDecrypt. simpl.
    repeat (split; [assumption|]). split; [discriminate|].
    intros _. destruct (Hholds ltac:(discriminate)) as (b & content & H1 & H2 & H3 & H4 & H5 & H6).
    exists b, content. simpl in *. repeat (split; [assumption|]).
    intros [?|?]; discriminate.
  - (* the loop is over *)
    injection Hstep as <-. unfold recorded. simpl.
    exists done. unfold inOrder, pastHash, pastDecrypt. simpl.
    repeat (split; [assumption|]). split; [discriminate|].
    intros _. destruct (Hholds ltac:(discriminate)) as (b & content & H1 & H2 & H3 & H4 & H5 & H6).
    exists b, content. simpl in *. repeat (split; [assumption|]).
    intros [?|?]; discriminate.
  - (* one pair is sent *)
    simpl in Hstep. destruct (Nat.ltb _ _); [|discriminate].
    injection Hstep as <-. unfold recorded. simpl.
    exists done. unfold inOrder, pastHash, pastDecrypt. simpl.
    split; [now lists|].
    repeat (split; [assumption|]). split; [discriminate|].
    intros _. destruct (Hholds ltac:(discriminate)) as (b & content & H1 & H2 & H3 & H4 & H5 & H6).
    exists b, content. simpl in *. repeat (split; [assumption|]).
    intros [?|?]; discriminate.
  - (* [wg.Wait] *)
    simpl in Hstep. destruct (Z.eqb _ _); [|discriminate].
    injection Hstep as <-. unfold recorded. simpl.
    exists done. unfold inOrder, pastHash, pastDecrypt. simpl.
    repeat (split; [assumption|]). split; [discriminate|].
    intros _. destruct (Hholds ltac:(discriminate)) as (b & content & H1 & H2 & H3 & H4 & H5 & H6).
    exists b, content. simpl in *. repeat (split; [assumption|]).
    intros [?|?]; discriminate.
  - (* [Flush] *)
    destruct (Hholds ltac:(discriminate)) as (b & content & H1 & H2 & H3 & H4 & H5 & H6).
    simpl in H1, H4. subst chk. simpl in Hstep.
    rewrite <- H2 in H4. rewrite (Flush_file b _ content true H4 H3) in Hstep.
    injection Hstep as <-. unfold recorded. simpl.
    exists done. unfold inOrder, pastHash, pastDecrypt. simpl.
    split; [assumption|].
    assert (Hother : forall fp, In fp (app done (app (held cW) (app cch (app (held hW)
                       (app hch (app (held dW) (app dch [])))))))
                     -> bufio.wr b <> pipeline.plain fp).
    { intros fp Hin Heq. destruct (key_member _ _ _ Hord Hin) as [Hp _].
      apply List.NoDup_cons_iff in Hnd as [Hnd _]. apply Hnd.
      now rewrite <- H2, Heq. }
    split; [|split; [|split; [|split; [discriminate|]]]].
    + intros fp Hin. apply hashed_insert; [|now apply Hhash].
      apply Hother. revert Hin. rewrite ?in_app_iff. pose proof (sent_held hW fp). tauto.
    + intros fp Hin. apply decrypted_insert; [|now apply Hdec].
      apply Hother. revert Hin. rewrite ?in_app_iff. pose proof (sent_held dW fp). tauto.
    + intros p Hp. rewrite lookup_insert_ne; [now apply Hframe|].
      intros <-. apply Hp. rewrite H2. now left.
    + intros _. exists (bufio.mkWriter (bufio.wr b) "" (bufio.wsize b) None),
                       (content ++ bufio.buf b)%string.
      simpl. rewrite <- H2, lookup_insert_eq, append_empty_r.
      repeat split. exact H5.
  - (* [Close] *)
    injection Hstep as <-. unfold recorded. simpl.
    exists done. unfold inOrder, pastHash, pastDecrypt. simpl.
    repeat (split; [assumption|]). split; [discriminate|].
    intros _. destruct (Hholds ltac:(discriminate)) as (b & content & H1 & H2 & H3 & H4 & H5 & H6).
    exists b, content. simpl in *. repeat (split; [assumption|]).
    intros _. apply H6. now left.
  - discriminate.
Qed.

Ltac pipeline_state :=
  unfold inOrder, pastHash, pastDecrypt, counted, inFlight in *;
  cbn [pipeline.world pipeline.pc pipeline.decryptCh pipeline.hashCh pipeline.chksumCh
       pipeline.decryptW pipeline.hashW pipeline.chksumW pipeline.wg pipeline.chkWriter
       pipeline.exited] in *.

Lemma holds_world (j : pipeline.Journal) (s s' : pipeline.state)
    (l : list pipeline.FilePair) :
  pipeline.chkWriter s' = pipeline.chkWriter s ->
  pipeline.pc s' = pipeline.pc s ->
  fs (pipeline.world s') !! checkPath (pipeline.RootDir j)
  = fs (pipeline.world s) !! checkPath (pipeline.RootDir j) ->
  holds j s l -> holds j s' l.
Proof.
  intros Hw Hpc Hfs (b & content & H1 & H2 & H3 & H4 & H5 & H6).
  exists b, content. rewrite Hw, Hpc, Hfs. tauto.
Qed.

Lemma recorded_Decrypt (j : pipeline.Journal) (w : World) (s s' : pipeline.state) :
  separate j -> counted s -> recorded md5sum gpgDecrypt j w s ->
  pipeline.exited s = None -> pipeline.pc s <> pipeline.Returned ->
  pipeline.stepDecrypt gpgDecrypt j s = Some s' ->
  recorded md5sum gpgDecrypt j w s'.
Proof.
  intros [Hnd Henc] Hcnt Hrec Hex Hpc Hstep.
  destruct s as [wd pc dch hch cch dW hW cW wg chk ex]. simpl in Hex, Hpc. subst ex.
  unfold recorded in Hrec. cbn [pipeline.exited] in Hrec.
  destruct Hrec as (done & Hord & Hhash & Hdec & Hframe & Hcreate & Hholds).
  unfold pipeline.stepDecrypt in Hstep. pipeline_state.
  destruct dW as [|fp|fp].
  - (* a pair is received *)
    destruct dch as [|fp ch]; [discriminate|]. injection Hstep as <-.
    unfold recorded. simpl. exists done. pipeline_state.
    split; [exact Hord|]. split; [exact Hhash|]. split; [member Hdec|].
    split; [exact Hframe|]. split; [exact Hcreate|].
    intros H. now apply (holds_world j _ _ _ eq_refl eq_refl eq_refl (Hholds H)).
  - (* the pair is decrypted *)
    destruct (pipeline.Decrypt gpgDecrypt fp j wd) as [[err|] w1] eqn:E;
      injection Hstep as <-.
    { unfold recorded, pipeline.exit. simpl. exact Hpc. }
    destruct (pipeline_Decrypt_effect _ _ _ _ _ E) as (ct & pt & Hct & Hpt & Hfs).
    assert (Hin : In fp (app done (app (held cW) (app cch (app (held hW)
                     (app hch (app (held (pipeline.Holding fp))
                        (app dch (pending j pc))))))))).
    { rewrite ?in_app_iff. simpl. tauto. }
    destruct (key_member _ _ _ Hord Hin) as [Hplain (fp0 & Hin0 & Henc0)].
    assert (Hcheck : pipeline.plain fp <> checkPath (pipeline.RootDir j)).
    { intros Heq. apply List.NoDup_cons_iff in Hnd as [Hnd _]. apply Hnd.
      now rewrite <- Heq. }
    assert (Hother : forall fp', In fp' (app done (app (held cW) (app cch
                       (app (held hW) hch)))) ->
                     pipeline.plain fp <> pipeline.plain fp').
    { intros fp' Hin'. apply List.NoDup_cons_iff in Hnd as [_ Hnd].
      unfold written in Hnd. rewrite <- (key_plains _ _ Hord) in Hnd.
      apply (apart (app done (app (held cW) (app cch (app (held hW) hch))))
                   (app dch (pending j pc)) fp fp'); [|exact Hin'].
      rewrite <- ?app_assoc. exact Hnd. }
    unfold recorded. simpl. exists done. pipeline_state. rewrite Hfs.
    split; [exact Hord|].
    split; [|split; [|split; [|split; [exact Hcreate|]]]].
    + intros fp' Hin'. apply hashed_insert; [|now apply Hhash].
      apply Hother. revert Hin'. rewrite ?in_app_iff. pose proof (sent_held hW fp'). tauto.
    + intros fp' Hin'. rewrite ?in_app_iff in Hin'. simpl in Hin'.
      destruct Hin' as [H|[H|[H|[H|[H|[<-|[]]]]]]];
        try (apply decrypted_insert;
             [apply Hother | apply Hdec]; rewrite ?in_app_iff; simpl; tauto).
      exists ct, pt. rewrite lookup_insert_eq. split; [|now split].
      rewrite <- (Hframe (pipeline.enc fp)); [exact Hct|].
      rewrite <- Henc0. now apply Henc.
    + intros p Hp. rewrite lookup_insert_ne; [now apply Hframe|].
      intros <-. apply Hp. now right.
    + intros H. refine (holds_world j _ _ _ _ _ _ (Hholds H)); [reflexivity ..|].
      simpl. rewrite Hfs. now apply lookup_insert_ne.
  - (* the pair is sent on *)
    destruct (Nat.ltb _ _); [|discriminate]. injection Hstep as <-.
    unfold recorded. simpl. exists done. pipeline_state.
    split; [now lists|]. split; [exact Hhash|]. split; [member Hdec|].
    split; [exact Hframe|]. split; [exact Hcreate|].
    intros H. now apply (holds_world j _ _ _ eq_refl eq_refl eq_refl (Hholds H)).
Qed.

Lemma recorded_Hash (j : pipeline.Journal) (w : World) (s s' : pipeline.state) :
  separate j -> counted s -> recorded md5sum gpgDecrypt j w s ->
  pipeline.exited s = None -> pipeline.pc s <> pipeline.Returned ->
  pipeline.stepHash md5sum j s = Some s' ->
  recorded md5sum gpgDecrypt j w s'.
Proof.
  intros [Hnd Henc] Hcnt Hrec Hex Hpc Hstep.
  destruct s as [wd pc dch hch cch dW hW cW wg chk ex]. simpl in Hex, Hpc. subst ex.
  unfold recorded in Hrec. cbn [pipeline.exited] in Hrec.
  destruct Hrec as (done & Hord & Hhash & Hdec & Hframe & Hcreate & Hholds).
  unfold pipeline.stepHash in Hstep. pipeline_state.
  destruct hW as [|fp|fp].
  - (* a pair is received *)
    destruct hch as [|fp ch]; [discriminate|]. injection Hstep as <-.
    unfold recorded. simpl. exists done. pipeline_state.
    split; [exact Hord|]. split; [member Hhash|]. split; [member Hdec|].
    split; [exact Hframe|]. split; [exact Hcreate|].
    intros H. now apply (holds_world j _ _ _ eq_refl eq_refl eq_refl (Hholds H)).
  - (* the pair is hashed *)
    unfold pipeline.CalculateHash in Hstep.
    change (fs (logExec "md5" ["-r"; pipeline.plain fp] wd)) with (fs wd) in Hstep.
    destruct (ReadFile (fs wd) (pipeline.plain fp)) as [content [err|]] eqn:E;
      injection Hstep as <-.
    { unfold recorded, pipeline.exit. simpl. exact Hpc. }
    unfold recorded. simpl. exists done. pipeline_state.
    split; [rewrite ?map_app in *; exact Hord|].
    split; [|split; [|split; [exact Hframe|split; [exact Hcreate|]]]].
    + intros fp' Hin'. rewrite ?in_app_iff in Hin'. simpl in Hin'.
      destruct Hin' as [H|[H|[H|[<-|[]]]]];
        [apply Hhash; rewrite ?in_app_iff; tauto ..|].
      now apply hashed_key.
    + intros fp' Hin'. rewrite ?in_app_iff in Hin'. simpl in Hin'.
      destruct Hin' as [H|[H|[H|[[<-|[]]|H]]]];
        try (apply Hdec; rewrite ?in_app_iff; simpl; tauto).
      apply decrypted_key, Hdec. rewrite ?in_app_iff. simpl. tauto.
    + intros H. now apply (holds_world j _ _ _ eq_refl eq_refl eq_refl (Hholds H)).
  - (* the pair is sent on *)
    destruct (Nat.ltb _ _); [|discriminate]. injection Hstep as <-.
    unfold recorded. simpl. exists done. pipeline_state.
    split; [now lists|]. split; [member Hhash|]. split; [member Hdec|].
    split; [exact Hframe|]. split; [exact Hcreate|].
    intros H. now apply (holds_world j _ _ _ eq_refl eq_refl eq_refl (Hholds H)).
Qed.

Lemma recorded_Checksum (j : pipeline.Journal) (w : World) (s s' : pipeline.state) :
  separate j -> counted s -> recorded md5sum gpgDecrypt j w s ->
  pipeline.exited s = None -> pipeline.pc s <> pipeline.Returned ->
  pipeline.stepChecksum j s = Some s' ->
  recorded md5sum gpgDecrypt j w s'.
Proof.
  intros [Hnd Henc] Hcnt Hrec Hex Hpc Hstep.
  destruct s as [wd pc dch hch cch dW hW cW wg chk ex]. simpl in Hex, Hpc. subst ex.
  unfold recorded in Hrec. cbn [pipeline.exited] in Hrec.
  destruct Hrec as (done & Hord & Hhash & Hdec & Hframe & Hcreate & Hholds).
  unfold pipeline.stepChecksum in Hstep. pipeline_state.
  destruct chk as [b|]; [|discriminate].
  destruct cW as [|fp|fp].
  - (* a pair is received *)
    destruct cch as [|fp ch]; [discriminate|]. injection Hstep as <-.
    unfold recorded. simpl. exists done. pipeline_state.
    split; [exact Hord|]. split; [member Hhash|]. split; [member Hdec|].
    split; [exact Hframe|]. split; [exact Hcreate|].
    intros H. now apply (holds_world j _ _ _ eq_refl eq_refl eq_refl (Hholds H)).
  - (* the fingerprint of the pair is written *)
    assert (Hstarted : pc <> pipeline.AtCreate).
    { intros ->. simpl in Hcnt. lia. }
    assert (Hbusy : pc <> pipeline.AtClose /\ pc <> pipeline.Returned).
    { split; intros ->; simpl in Hcnt; lia. }
    destruct (Hholds Hstarted) as (b0 & content & H1 & H2 & H3 & H4 & H5 & _).
    simpl in H1, H4. injection H1 as <-. rewrite <- H2 in H4.
    destruct (Write_file b (pipeline.plainHash fp) (fs wd) content true H4 H3)
      as (content' & buf' & HW & Hcat).
    rewrite HW in Hstep. injection Hstep as <-.
    assert (Hother : forall fp', In fp' (app done (app (held (pipeline.Holding fp))
                       (app cch (app (held hW) (app hch (app (held dW)
                          (app dch (pending j pc)))))))) ->
                     bufio.wr b <> pipeline.plain fp').
    { intros fp' Hin Heq. destruct (key_member _ _ _ Hord Hin) as [Hp _].
      apply List.NoDup_cons_iff in Hnd as [Hnd _]. apply Hnd.
      now rewrite <- H2, Heq. }
    unfold recorded. simpl. exists done. pipeline_state.
    split; [exact Hord|].
    split; [|split; [|split; [|split; [exact Hcreate|]]]].
    + intros fp' Hin. apply hashed_insert; [|now apply Hhash].
      apply Hother. revert Hin. rewrite ?in_app_iff. pose proof (sent_held hW fp'). tauto.
    + intros fp' Hin. apply decrypted_insert; [|now apply Hdec].
      apply Hother. revert Hin. rewrite ?in_app_iff. pose proof (sent_held dW fp'). tauto.
    + intros p Hp. rewrite lookup_insert_ne; [now apply Hframe|].
      intros <-. apply Hp. rewrite H2. now left.
    + intros _. exists (bufio.mkWriter (bufio.wr b) buf' (bufio.wsize b) None), content'.
      simpl. rewrite <- H2, lookup_insert_eq.
      split; [reflexivity|]. split; [reflexivity|]. split; [reflexivity|].
      split; [reflexivity|]. split; [|tauto].
      rewrite Hcat. simpl in H5. rewrite app_nil_r in H5.
      rewrite map_app, concatAll_app. simpl.
      now rewrite append_empty_r, <- H5, append_assoc.
  - (* [wg.Done] *)
    assert (Hstarted : pc <> pipeline.AtCreate).
    { intros ->. simpl in Hcnt. lia. }
    injection Hstep as <-.
    unfold recorded. simpl. exists (app done [fp]). pipeline_state.
    split; [now lists|]. split; [member Hhash|]. split; [member Hdec|].
    split; [exact Hframe|]. split; [tauto|].
    intros H. rewrite app_nil_r.
    now apply (holds_world j _ _ _ eq_refl eq_refl eq_refl (Hholds H)).
Qed.

Lemma recorded_step (j : pipeline.Journal) (w : World) (a : pipeline.actor)
    (s s' : pipeline.state) :
  separate j -> counted s -> recorded md5sum gpgDecrypt j w s ->
  pipeline.stepOf md5sum gpgDecrypt j a s = Some s' ->
  recorded md5sum gpgDecrypt j w s'.
Proof.
  intros Hsep Hcnt Hrec Hstep. unfold pipeline.stepOf in Hstep.
  destruct (pipeline.exited s) eqn:Hex; [discriminate|].
  assert (Hpc : pipeline.pc s <> pipeline.Returned).
  { intros Heq. rewrite Heq in Hstep. discriminate. }
  assert (Hturn : match a with
                  | pipeline.Main => pipeline.stepMain j s
                  | pipeline.DecryptWorker => pipeline.stepDecrypt gpgDecrypt j s
                  | pipeline.HashWorker => pipeline.stepHash md5sum j s
                  | pipeline.ChecksumWorker => pipeline.stepChecksum j s
                  end = Some s').
  { destruct (pipeline.pc s); try exact Hstep. now contradiction Hpc. }
  destruct a.
  - exact (recorded_Main j w s s' Hsep Hcnt Hrec Hex Hturn).
  - exact (recorded_Decrypt j w s s' Hsep Hcnt Hrec Hex Hpc Hturn).
  - exact (recorded_Hash j w s s' Hsep Hcnt Hrec Hex Hpc Hturn).
  - exact (recorded_Checksum j w s s' Hsep Hcnt Hrec Hex Hpc Hturn).
Qed.

End PipelineRecords.

Section PipelineFacts.
Import os.
Variable md5sum : string -> string.
Variable gpgDecrypt : string -> string -> option string.

Lemma counted_init (j : pipeline.Journal) (w : World) : counted (pipeline.init j w).
Proof. now split. Qed.

Lemma reachable_counted (j : pipeline.Journal) (w : World) (s : pipeline.state) :
  pipeline.reachable md5sum gpgDecrypt j w s -> counted s.
Proof.
  induction 1 as [|s s' _ IH Hstep].
  - apply counted_init.
  - inversion Hstep as [a s1 s2 Hturn]; subst.
    exact (counted_step md5sum gpgDecrypt j a s s' IH Hturn).
Qed.

Lemma started_init (j : pipeline.Journal) (w : World) : started (pipeline.init j w).
Proof. now left. Qed.

Lemma reachable_started (j : pipeline.Journal) (w : World) (s : pipeline.state) :
  pipeline.reachable md5sum gpgDecrypt j w s -> started s.
Proof.
  induction 1 as [|s s' _ IH Hstep].
  - apply started_init.
  - inversion Hstep as [a s1 s2 Hturn]; subst.
    exact (started_step md5sum gpgDecrypt j a s s' IH Hturn).
Qed.

Lemma recorded_init (j : pipeline.Journal) (w : World) :
  recorded md5sum gpgDecrypt j w (pipeline.init j w).
Proof.
  unfold recorded. simpl. exists []. unfold inOrder, pastHash, pastDecrypt. simpl.
  split; [reflexivity|]. split; [tauto|]. split; [tauto|]. split; [reflexivity|].
  split; [reflexivity | intros H; now contradiction H].
Qed.

Lemma reachable_recorded (j : pipeline.Journal) (w : World) (s : pipeline.state) :
  separate j ->
  pipeline.reachable md5sum gpgDecrypt j w s ->
  recorded md5sum gpgDecrypt j w s.
Proof.
  intros Hsep. induction 1 as [|s s' Hreach IH Hstep].
  - apply recorded_init.
  - inversion Hstep as [a s1 s2 Hturn]; subst.
    exact (recorded_step md5sum gpgDecrypt j w a s s' Hsep
             (reachable_counted j w s Hreach) IH Hturn).
Qed.

(** Once the wait is over nothing is in the pipeline. *)
Lemma nothing_in_flight (s : pipeline.state) :
  inFlight s = 0 ->
  pipeline.decryptCh s = [] /\ pipeline.hashCh s = [] /\ pipeline.chksumCh s = []
  /\ pipeline.decryptW s = pipeline.Receiving /\ pipeline.hashW s = pipeline.Receiving
  /\ pipeline.chksumW s = pipeline.Receiving.
Proof.
  destruct s as [wd pc dch hch cch dW hW cW wg chk ex]. unfold inFlight. simpl.
  destruct dch, hch, cch, dW, hW, cW; simpl; intros H; try lia; repeat split.
Qed.

Lemma lines_in_order (fs : gmap string node) (l1 : list pipeline.FilePair) :
  forall l2,
    map key l1 = map key l2 ->
    (forall fp, In fp l1 -> hashed md5sum fs fp) ->
    map pipeline.plainHash l1 = map (md5Line md5sum fs) l2.
Proof.
  induction l1 as [|fp l1 IH]; intros [|fp2 l2] Hkey Hall; try discriminate; [reflexivity|].
  simpl in Hkey. injection Hkey as Henc Hplain Hkey. simpl. f_equal.
  - destruct (Hall fp (or_introl eq_refl)) as [_ ->]. unfold md5Line. now rewrite Hplain.
  - apply IH; [exact Hkey|]. intros fp' Hin. apply Hall. now right.
Qed.

(** X17: when the pipelined [Unlock] returns, whatever the order in which
    the goroutines ran, the checksum file holds one line of [md5 -r] for each
    pair, in the order of [Files], each with the fingerprint of the
    plaintext as it is then. *)
Theorem pipeline_Unlock_checklist (j : pipeline.Journal) (w : World) (s : pipeline.state) :
  separate j ->
  pipeline.reachable md5sum gpgDecrypt j w s ->
  pipeline.pc s = pipeline.Returned ->
  fs (pipeline.world s) !! checkPath (pipeline.RootDir j)
  = Some (File (concatAll (map (md5Line md5sum (fs (pipeline.world s))) (pipeline.Files j)))
               true).
Proof.
  intros Hsep Hreach Hpc.
  pose proof (reachable_counted j w s Hreach) as Hcnt.
  pose proof (reachable_recorded j w s Hsep Hreach) as Hrec.
  unfold counted in Hcnt. unfold recorded in Hrec. rewrite Hpc in *.
  destruct (pipeline.exited s); [now contradiction Hrec|].
  destruct Hrec as (done & Hord & Hhash & _ & _ & _ & Hholds).
  destruct Hcnt as [_ Hzero].
  destruct (nothing_in_flight s Hzero) as (Hd & Hh & Hc & HdW & HhW & HcW).
  unfold inOrder, pastHash in *. rewrite Hd, Hh, Hc, HdW, HhW, HcW, Hpc in *.
  simpl in *. rewrite ?app_nil_r in *.
  destruct (Hholds ltac:(discriminate)) as (b & content & _ & _ & _ & Hfile & Hcat & Hbuf).
  rewrite Hpc in Hbuf. rewrite (Hbuf (or_intror eq_refl)), append_empty_r in Hcat.
  rewrite ?app_nil_r in Hcat.
  rewrite Hfile, Hcat. now rewrite (lines_in_order _ done _ Hord Hhash).
Qed.

(** X18: when the pipelined [Unlock] returns, the plaintext of every pair
    holds what [gpg] decrypts from the artifact of the pair, and every path
    that is neither the checksum file nor a plaintext is as it was. *)
Theorem pipeline_Unlock_decrypts_every_pair (j : pipeline.Journal) (w : World)
    (s : pipeline.state) :
  separate j ->
  pipeline.reachable md5sum gpgDecrypt j w s ->
  pipeline.pc s = pipeline.Returned ->
  (forall fp, In fp (pipeline.Files j) ->
     decrypted gpgDecrypt j w (fs (pipeline.world s)) fp)
  /\ (forall p, ~ In p (written j) -> fs (pipeline.world s) !! p = fs w !! p).
Proof.
  intros Hsep Hreach Hpc.
  pose proof (reachable_counted j w s Hreach) as Hcnt.
  pose proof (reachable_recorded j w s Hsep Hreach) as Hrec.
  unfold counted in Hcnt. unfold recorded in Hrec. rewrite Hpc in *.
  destruct (pipeline.exited s); [now contradiction Hrec|].
  destruct Hrec as (done & Hord & _ & Hdec & Hframe & _ & _).
  destruct Hcnt as [_ Hzero].
  destruct (nothing_in_flight s Hzero) as (Hd & Hh & Hc & HdW & HhW & HcW).
  unfold inOrder, pastDecrypt in *. rewrite Hd, Hh, Hc, HdW, HhW, HcW, Hpc in *.
  simpl in *. rewrite ?app_nil_r in *.
  split; [|exact Hframe].
  intros fp Hin. apply (in_map key) in Hin. rewrite <- Hord in Hin.
  apply in_map_iff in Hin as (fp' & Hkey & Hin').
  injection Hkey as Henc Hplain.
  destruct (Hdec fp' Hin') as (ct & pt & H1 & H2 & H3).
  exists ct, pt. now rewrite <- Henc, <- Hplain.
Qed.

(** X19: the pipelined [Unlock] cannot block: as long as the process has not
    exited and [Unlock] has not returned, some goroutine can run its next
    statement. *)
Theorem pipeline_Unlock_never_blocks (j : pipeline.Journal) (w : World)
    (s : pipeline.state) :
  pipeline.reachable md5sum gpgDecrypt j w s ->
  pipeline.exited s = None ->
  pipeline.pc s <> pipeline.Returned ->
  exists a s', pipeline.stepOf md5sum gpgDecrypt j a s = Some s'.
Proof.
  intros Hreach Hex Hpc.
  pose proof (reachable_counted j w s Hreach) as Hcnt.
  pose proof (reachable_started j w s Hreach) as Hst.
  destruct s as [wd pc dch hch cch dW hW cW wg chk ex]. simpl in Hex, Hpc. subst ex.
  unfold counted, inFlight, started in *. simpl in Hcnt, Hst.
  assert (Hworker : pc <> pipeline.AtCreate ->
            0 < List.length dch + List.length (held dW) + List.length hch
                + List.length (held hW) + List.length cch + List.length (held cW) ->
            exists a s',
              pipeline.stepOf md5sum gpgDecrypt j a
                (pipeline.mkState wd pc dch hch cch dW hW cW wg chk None) = Some s').
  { intros Hcreated Hbusy.
    destruct Hst as [Hst|[b Hb]]; [now contradiction Hcreated|]. subst chk.
    unfold pipeline.stepOf. simpl.
    destruct cW as [|fp|fp].
    - destruct cch as [|fp ch].
      + destruct hW as [|fp|fp].
        * destruct hch as [|fp ch].
          -- destruct dW as [|fp|fp].
             ++ destruct dch as [|fp ch]; [simpl in Hbusy; lia|].
                exists pipeline.DecryptWorker. destruct pc; try now contradiction Hpc.
                all: simpl; eauto.
             ++ exists pipeline.DecryptWorker. destruct pc; try now contradiction Hpc.
                all: unfold pipeline.stepDecrypt; simpl;
                  destruct (pipeline.Decrypt _ _ _ _) as [[?|] ?]; eauto.
             ++ exists pipeline.DecryptWorker. destruct pc; try now contradiction Hpc.
                all: simpl; eauto.
          -- exists pipeline.HashWorker. destruct pc; try now contradiction Hpc.
             all: simpl; eauto.
        * exists pipeline.HashWorker. destruct pc; try now contradiction Hpc.
          all: unfold pipeline.stepHash; simpl;
            destruct (pipeline.CalculateHash _ _ _ _) as [[[?|] ?] ?]; eauto.
        * exists pipeline.HashWorker. destruct pc; try now contradiction Hpc.
          all: simpl; eauto.
      + exists pipeline.ChecksumWorker. destruct pc; try now contradiction Hpc.
        all: simpl; eauto.
    - exists pipeline.ChecksumWorker. destruct pc; try now contradiction Hpc.
      all: unfold pipeline.stepChecksum; simpl;
        destruct (bufio.Write _ _ _) as [[? ?] ?]; eauto.
    - exists pipeline.ChecksumWorker. destruct pc; try now contradiction Hpc.
      all: simpl; eauto. }
  destruct pc as [| |[|file rest]| | | |].
  - exists pipeline.Main. unfold pipeline.stepOf, pipeline.stepMain. simpl.
    destruct (Create _ _) as [[? [?|]] ?]; eauto.
  - exists pipeline.Main. simpl. eauto.
  - exists pipeline.Main. simpl. eauto.
  - destruct (Nat.ltb (List.length dch) pipeline.decryptCap) eqn:E.
    + exists pipeline.Main. unfold pipeline.stepOf, pipeline.stepMain. simpl.
      rewrite E. eauto.
    + apply Hworker; [discriminate|].
      apply Nat.ltb_ge in E. unfold pipeline.decryptCap in E. lia.
  - destruct (Z.eqb wg 0) eqn:E.
    + exists pipeline.Main. unfold pipeline.stepOf, pipeline.stepMain. simpl.
      rewrite E. eauto.
    + apply Hworker; [discriminate|]. apply Z.eqb_neq in E. lia.
  - destruct Hst as [Hst|[b Hb]]; [discriminate|]. subst chk.
    exists pipeline.Main. unfold pipeline.stepOf, pipeline.stepMain. simpl.
    destruct (bufio.Flush _ _) as [[? ?] ?]. eauto.
  - exists pipeline.Main. simpl. eauto.
  - now contradiction Hpc.
Qed.

Lemma run_stepsLeft (j : pipeline.Journal) (schedule : list pipeline.actor) :
  forall s s',
    pipeline.run md5sum gpgDecrypt j schedule s = Some s' ->
    List.length schedule + stepsLeft j s' <= stepsLeft j s.
Proof.
  induction schedule as [|a schedule IH]; intros s s' Hrun; simpl in Hrun.
  - injection Hrun as <-. simpl. lia.
  - destruct (pipeline.stepOf md5sum gpgDecrypt j a s) as [s1|] eqn:E; [|discriminate].
    pose proof (stepsLeft_step md5sum gpgDecrypt j a s s1 E).
    pose proof (IH s1 s' Hrun). simpl. lia.
Qed.

(** X20: every run of the pipelined [Unlock] ends: however the goroutines are
    scheduled, they run at most ten statements for each pair and six more. *)
Theorem pipeline_Unlock_ends (j : pipeline.Journal) (w : World)
    (schedule : list pipeline.actor) (s : pipeline.state) :
  pipeline.run md5sum gpgDecrypt j schedule (pipeline.init j w) = Some s ->
  List.length schedule <= 10 * List.length (pipeline.Files j) + 6.
Proof.
  intros Hrun. pose proof (run_stepsLeft j schedule _ _ Hrun) as H.
  unfold stepsLeft at 2 in H. simpl in H. lia.
Qed.

(** X21: [Unlock] returns only when the pipeline is empty: every channel is
    drained, every worker waits for its next pair, and the wait group is
    at zero. *)
Theorem pipeline_Unlock_returns_when_drained (j : pipeline.Journal) (w : World)
    (s : pipeline.state) :
  pipeline.reachable md5sum gpgDecrypt j w s ->
  pipeline.pc s = pipeline.Returned ->
  pipeline.wg s = 0%Z
  /\ pipeline.decryptCh s = [] /\ pipeline.hashCh s = [] /\ pipeline.chksumCh s = []
  /\ pipeline.decryptW s = pipeline.Receiving /\ pipeline.hashW s = pipeline.Receiving
  /\ pipeline.chksumW s = pipeline.Receiving.
Proof.
  intros Hreach Hpc. pose proof (reachable_counted j w s Hreach) as Hcnt.
  unfold counted in Hcnt. rewrite Hpc in Hcnt. destruct Hcnt as [Hwg Hzero].
  split; [exact Hwg | now apply nothing_in_flight].
Qed.

End PipelineFacts.

Section PipelineExamples.
Import os.

Lemma sample_separate : separate samplePipelinePairs.
Proof.
  assert (Hw : written samplePipelinePairs = ["/j/.check"; "/j/a"; "/j/b"])
    by (vm_compute; reflexivity).
  unfold separate. rewrite Hw. split.
  - repeat constructor; simpl; intuition discriminate.
  - intros fp [<-|[<-|[]]]; simpl; intuition discriminate.
Qed.

Lemma pipeline_Unlock_checklist_witness :
  exists s,
    pipeline.run sampleDigest sampleDecrypt samplePipelinePairs sampleSchedule
                 (pipeline.init samplePipelinePairs sampleSealedPairs) = Some s
    /\ fs (pipeline.world s) !! checkPath "/j"
       = Some (File (concatAll (map (md5Line sampleDigest (fs (pipeline.world s)))
                                    (pipeline.Files samplePipelinePairs)))
                    true).
Proof.
  eexists. split; [vm_compute; reflexivity|].
  apply (pipeline_Unlock_checklist sampleDigest sampleDecrypt samplePipelinePairs
           sampleSealedPairs).
  - exact sample_separate.
  - apply (run_reachable sampleDigest sampleDecrypt samplePipelinePairs sampleSealedPairs
             sampleSchedule (pipeline.init samplePipelinePairs sampleSealedPairs)).
    + apply pipeline.reachable_init.
    + vm_compute. reflexivity.
  - reflexivity.
Defined.

Lemma pipeline_Unlock_decrypts_every_pair_witness :
  exists s,
    pipeline.run sampleDigest sampleDecrypt samplePipelinePairs sampleSchedule
                 (pipeline.init samplePipelinePairs sampleSealedPairs) = Some s
    /\ decrypted sampleDecrypt samplePipelinePairs sampleSealedPairs
         (fs (pipeline.world s)) (pipeline.NewFilePair "/j/b.gpg" "/j/b")
    /\ fs (pipeline.world s) !! "/j/b.gpg" = fs sampleSealedPairs !! "/j/b.gpg".
Proof.
  eexists. split; [vm_compute; reflexivity|].
  match goal with |- decrypted _ _ _ (fs (pipeline.world ?s)) _ /\ _ =>
    destruct (pipeline_Unlock_decrypts_every_pair sampleDigest sampleDecrypt
                samplePipelinePairs sampleSealedPairs s) as [Hdec Hframe]
  end.
  - exact sample_separate.
  - apply (run_reachable sampleDigest sampleDecrypt samplePipelinePairs sampleSealedPairs
             sampleSchedule (pipeline.init samplePipelinePairs sampleSealedPairs)).
    + apply pipeline.reachable_init.
    + vm_compute. reflexivity.
  - reflexivity.
  - split.
    + apply Hdec. simpl. auto.
    + apply Hframe. vm_compute. intuition discriminate.
Defined.

Lemma pipeline_Unlock_never_blocks_witness :
  exists s,
    pipeline.run sampleDigest sampleDecrypt samplePipelinePairs
                 (firstn 9 sampleSchedule)
                 (pipeline.init samplePipelinePairs sampleSealedPairs) = Some s
    /\ exists a s', pipeline.stepOf sampleDigest sampleDecrypt samplePipelinePairs a s
                    = Some s'.
Proof.
  eexists. split; [vm_compute; reflexivity|].
  apply (pipeline_Unlock_never_blocks sampleDigest sampleDecrypt samplePipelinePairs
           sampleSealedPairs).
  - apply (run_reachable sampleDigest sampleDecrypt samplePipelinePairs sampleSealedPairs
             (firstn 9 sampleSchedule)
             (pipeline.init samplePipelinePairs sampleSealedPairs)).
    + apply pipeline.reachable_init.
    + vm_compute. reflexivity.
  - reflexivity.
  - discriminate.
Defined.

Lemma pipeline_Unlock_ends_witness :
  List.length sampleSchedule <= 10 * List.length (pipeline.Files samplePipelinePairs) + 6.
Proof.
  eapply (pipeline_Unlock_ends sampleDigest sampleDecrypt samplePipelinePairs
            sampleSealedPairs sampleSchedule).
  vm_compute. reflexivity.
Defined.

Lemma pipeline_Unlock_returns_when_drained_witness :
  exists s,
    pipeline.run sampleDigest sampleDecrypt samplePipelinePairs sampleSchedule
                 (pipeline.init samplePipelinePairs sampleSealedPairs) = Some s
    /\ pipeline.wg s = 0%Z
    /\ pipeline.decryptCh s = [] /\ pipeline.hashCh s = [] /\ pipeline.chksumCh s = []
    /\ pipeline.decryptW s = pipeline.Receiving /\ pipeline.hashW s = pipeline.Receiving
    /\ pipeline.chksumW s = pipeline.Receiving.
Proof.
  eexists. split; [vm_compute; reflexivity|].
  apply (pipeline_Unlock_returns_when_drained sampleDigest sampleDecrypt
           samplePipelinePairs sampleSealedPairs).
  - apply (run_reachable sampleDigest sampleDecrypt samplePipelinePairs sampleSealedPairs
             sampleSchedule (pipeline.init samplePipelinePairs sampleSealedPairs)).
    + apply pipeline.reachable_init.
    + vm_compute. reflexivity.
  - reflexivity.
Defined.

End PipelineExamples.
